(** * WebGL pixel mirror (p5-webgl-pixel-mirror/sketch.js)

    A shallow embedding of the sketch: the globals [gridSize], [diskRadius],
    [scaleValue] and [capture] form the sketch state, the p5 host supplies the
    canvas size, the pointer, the camera image and the key events, and the
    immediate-mode rendering calls issued by [draw] are collected, in order,
    in a list.

    The sketch is embedded on two kinds of numbers.  [Sketch64] is the frame
    routine as JavaScript evaluates it: every number is an IEEE 754 binary64
    number, every operation is the correctly rounded one, a value missing
    from the pixel array is [undefined] and turns the arithmetic that uses it
    into [NaN], and a frame whose loops never end has no result.  The
    definitions at top level read the same code on exact rationals ([Q]),
    with integers ([Z]) for loop counters, results of [floor], array indices
    and channel bytes, and [None] for [undefined] and [NaN].  The key handler
    only adds and subtracts small integers, on which the two readings
    coincide; for the frame they coincide on the grid dimensions and on the
    sampled pixels of every configuration that [setup] and the keys can
    reach ([binary64_sampler_on_session]), and differ elsewhere
    ([binary64_sampler_may_differ]).

    The file also embeds, on binary64 numbers, the code fragments of the
    README that the sketch builds on: the hue conversion and the nested
    stepping loops. *)

From Stdlib Require Import String Bool ZArith QArith Qround Qminmax List Lia Lqa.
From Stdlib Require Import SpecFloat.
Import ListNotations.

Local Open Scope Z_scope.
Local Open Scope Q_scope.

(** ** Numbers *)

(** A JavaScript number that may be [undefined]/[NaN]. *)
Definition num : Type := option Q.

Definition lift1 (f : Q -> Q) (a : num) : num :=
  match a with Some x => Some (f x) | None => None end.

Definition lift2 (f : Q -> Q -> Q) (a b : num) : num :=
  match a, b with Some x, Some y => Some (f x y) | _, _ => None end.

Definition nadd : num -> num -> num := lift2 Qplus.

(** Equality of possibly undefined numbers up to [Qeq]. *)
Definition num_eq (a : num) (q : Q) : Prop :=
  match a with Some x => x == q | None => False end.

(** p5's [floor] is [Math.floor]. *)
Definition floor (q : Q) : Z := Qfloor q.

(** p5's [max] and [min] on two numbers are [Math.max] and [Math.min]. *)
Definition max (a b : Q) : Q := Qmax a b.
Definition min (a b : Q) : Q := Qmin a b.

(** Modelled from the spec: p5's constant [PI], absent from the sources.  It
    is the binary64 number nearest to the mathematical constant, which is the
    rational [884279719003555 / 2^48]. *)
Definition PI : Q := 884279719003555 # 281474976710656.

(** Modelled from the spec: p5's [map], absent from the sources, the linear
    rescale of [n] from the range [start1..stop1] to [start2..stop2] (called
    here without the optional clamping argument). *)
Definition map (n start1 stop1 start2 stop2 : Q) : Q :=
  (n - start1) / (stop1 - start1) * (stop2 - start2) + start2.

(** Modelled from the spec: p5's key codes of the arrow keys, absent from the
    sources. *)
Definition UP_ARROW : Z := 38%Z.
Definition DOWN_ARROW : Z := 40%Z.

(** ** The video capture *)

Module Capture.

(** [capture.width], [capture.height] and [capture.pixels]: four channel
    bytes (R, G, B, A) per pixel, row-major. *)
Record t : Type := mk { width : Z; height : Z; pixels : list Z }.

(** The pixel array holds [width * height * 4] bytes. *)
Definition well_formed (c : t) : Prop :=
  (1 <= width c)%Z /\ (1 <= height c)%Z /\
  Z.of_nat (length (pixels c)) = (width c * height c * 4)%Z /\
  Forall (fun v => (0 <= v <= 255)%Z) (pixels c).

End Capture.

(** [pixels[i]]: the byte at index [i], [undefined] outside the array. *)
Definition get (pixels : list Z) (i : Z) : option Z :=
  if (i <? 0)%Z then None else nth_error pixels (Z.to_nat i).

(** ** Sketch state and host *)

Record Sketch : Type := mkSketch {
  capture : Capture.t;
  gridSize : Q;
  diskRadius : Q;
  scaleValue : Q
}.

(** What p5 provides to a frame: the canvas size, the pointer and the image
    the camera currently shows (what [capture.loadPixels()] copies into
    [capture.pixels]). *)
Record Host : Type := mkHost {
  width : Z;
  height : Z;
  mouseX : Q;
  mouseY : Q;
  video : list Z
}.

(** A key event: p5's [key] and [keyCode]. *)
Record KeyEvent : Type := mkKey { key : string; keyCode : Z }.

(** The rendering calls of the sketch. *)
Inductive DrawCall : Type :=
| background (v : Q)
| ambientLight (v : Q)
| directionalLight (r g b x y z : Q)
| pointLight (r g b x y z : Q)
| translate (x y : Q) (z : num)
| push
| rotateX (angle : num)
| specularMaterial (r g b : option Z)
| shininess (s : Q)
| cylinder (radius h : Q)
| pop.

(** ** setup *)

(** The globals after [setup]: the capture is sized [1920 / scaleValue] by
    [1080 / scaleValue] and no frame has been loaded yet. *)
Definition setup : Sketch :=
  let scaleValue := 10 in
  {| capture := {| Capture.width := floor (1920 / scaleValue);
                   Capture.height := floor (1080 / scaleValue);
                   Capture.pixels := [] |};
     gridSize := 20;
     diskRadius := 15;
     scaleValue := scaleValue |}.

(** The canvas made by [createCanvas(1280, 720, WEBGL)]. *)
Definition canvasWidth : Z := 1280%Z.
Definition canvasHeight : Z := 720%Z.

(** ** draw *)

(** [for (let i = 0; i < n; i++)]: the values taken by the counter. *)
Definition range (n : Z) : list Z := List.map Z.of_nat (seq 0 (Z.to_nat n)).

(** Lines 45-46: the grid dimensions on exact numbers, that is the floor of
    the exact quotient.  The quotient that the code rounds to binary64 before
    flooring is [Sketch64.gridDim]: it is the same for an integral [gridSize]
    on the canvas of the session, can be one more otherwise, and is
    [Infinity] rather than 0 when [gridSize] is 0. *)
Definition gridDim (canvasDim : Z) (gridSize : Q) : Z :=
  floor (inject_Z canvasDim / gridSize).

(** Lines 52-53: position in the video capture on exact numbers.  The
    product that the code rounds to binary64 before flooring is
    [Sketch64.captureCoord], which can be one less. *)
Definition captureCoord (i n captureDim : Z) : Z :=
  floor ((inject_Z i / inject_Z n) * inject_Z captureDim).

(** Line 56: the pixel offset. *)
Definition pixelOffset (captureWidth captureHeight cols rows x y : Z) : Z :=
  let captureX := captureCoord x cols captureWidth in
  let captureY := captureCoord y rows captureHeight in
  ((captureY * captureWidth + captureX) * 4)%Z.

(** Line 64: brightness of the three channels read, on exact numbers.  The
    quotient rounded to binary64, which is what the code passes on, is
    [Sketch64.brightness]. *)
Definition brightness (r g b : option Z) : num :=
  lift1 (fun s => s / 3)
        (nadd (nadd (option_map inject_Z r) (option_map inject_Z g))
              (option_map inject_Z b)).

(** Lines 66-71. *)
Definition rotationOf (brightness : num) : num :=
  lift1 (fun v => map v 0 255 0 PI) brightness.

Definition zDepthOf (brightness : num) : num :=
  lift1 (fun v => map v 0 255 (-100) 100) brightness.

(** Lines 51-98: the body of the inner loop for the cell [(x, y)]. *)
Definition cell (s : Sketch) (cols rows x y : Z) : list DrawCall :=
  let c := capture s in
  let offset := pixelOffset (Capture.width c) (Capture.height c) cols rows x y in
  let r := get (Capture.pixels c) offset in
  let g := get (Capture.pixels c) (offset + 1) in
  let b := get (Capture.pixels c) (offset + 2) in
  let brightness := brightness r g b in
  let rotationX := rotationOf brightness in
  let zDepth := zDepthOf brightness in
  let xPos := inject_Z x * gridSize s + gridSize s / 2 in
  let yPos := inject_Z y * gridSize s + gridSize s / 2 in
  [ push;
    translate xPos yPos zDepth;
    rotateX rotationX;
    specularMaterial r g b;
    shininess 20;
    cylinder (diskRadius s) 2;
    pop ].

(** Line 38: [capture.loadPixels()] copies the current camera image into
    [capture.pixels]. *)
Definition loadPixels (c : Capture.t) (frame : list Z) : Capture.t :=
  {| Capture.width := Capture.width c;
     Capture.height := Capture.height c;
     Capture.pixels := frame |}.

(** Lines 23-42: the calls issued before the loops. *)
Definition prelude (h : Host) : list DrawCall :=
  let locX := mouseX h - inject_Z (width h) / 2 in
  let locY := mouseY h - inject_Z (height h) / 2 in
  [ background 20;
    ambientLight 60;
    directionalLight 255 255 255 (1 # 4) (1 # 4) 1;
    pointLight 200 200 255 locX locY 200;
    translate (- inject_Z (width h) / 2) (- inject_Z (height h) / 2) (Some 0) ].

(** Lines 49-100: the nested loops. *)
Definition grid (s : Sketch) (cols rows : Z) : list DrawCall :=
  flat_map (fun y => flat_map (fun x => cell s cols rows x y) (range cols))
           (range rows).

(** One frame: the globals after it and the rendering calls it issued.  The
    model covers [gridSize s] different from zero (with a zero [gridSize] the
    grid dimensions of the source are not finite). *)
Definition draw (s : Sketch) (h : Host) : Sketch * list DrawCall :=
  let s' := {| capture := loadPixels (capture s) (video h);
               gridSize := gridSize s;
               diskRadius := diskRadius s;
               scaleValue := scaleValue s |} in
  let cols := gridDim (width h) (gridSize s') in
  let rows := gridDim (height h) (gridSize s') in
  (s', prelude h ++ grid s' cols rows).

(** ** keyPressed *)

(** Lines 104-123.  The branch for the space key has an empty body. *)
Definition keyPressed (s : Sketch) (e : KeyEvent) : Sketch :=
  let gridSize' :=
    if (keyCode e =? UP_ARROW)%Z then max 10 (gridSize s - 2)
    else if (keyCode e =? DOWN_ARROW)%Z then min 40 (gridSize s + 2)
    else gridSize s in
  let diskRadius' :=
    if String.eqb (key e) "[" then max 5 (diskRadius s - 2)
    else if String.eqb (key e) "]" then min 30 (diskRadius s + 2)
    else diskRadius s in
  {| capture := capture s;
     gridSize := gridSize';
     diskRadius := diskRadius';
     scaleValue := scaleValue s |}.

(** The globals after a sequence of key events. *)
Definition keysPressed (s : Sketch) (es : list KeyEvent) : Sketch :=
  fold_left keyPressed es s.

(** The exact grid dimension for an integral [gridSize], and the exact
    capture coordinate, under names that the module below does not shadow. *)
Definition exactGridDim (canvasDim gridSize : Z) : Z :=
  gridDim canvasDim (inject_Z gridSize).
Definition exactCaptureCoord : Z -> Z -> Z -> Z := captureCoord.

(** ** Binary64 arithmetic

    JavaScript evaluates the arithmetic of the sketch on IEEE 754 binary64
    numbers.  The operations below are the correctly rounded ones of the
    standard library's specification of floating-point numbers. *)

Module Binary64.

Definition prec : Z := 53%Z.
Definition emax : Z := 1024%Z.

Definition of_Z (z : Z) : spec_float := binary_normalize prec emax z 0 false.

Definition add : spec_float -> spec_float -> spec_float := SFadd prec emax.
Definition sub : spec_float -> spec_float -> spec_float := SFsub prec emax.
Definition mul : spec_float -> spec_float -> spec_float := SFmul prec emax.
Definition div : spec_float -> spec_float -> spec_float := SFdiv prec emax.

(** [Math.floor] of a finite number. *)
Definition floor (f : spec_float) : option Z :=
  match f with
  | S754_zero _ => Some 0%Z
  | S754_finite s m e =>
      let v := cond_Zopp s (Zpos m) in
      Some (if (0 <=? e)%Z then v * 2 ^ e else v / 2 ^ (- e))%Z
  | S754_infinity _ | S754_nan => None
  end.

(** The rational denoted by a finite number. *)
Definition to_Q (f : spec_float) : option Q :=
  match f with
  | S754_zero _ => Some 0
  | S754_finite s m e => Some (inject_Z (cond_Zopp s (Zpos m)) * Qpower 2 e)
  | S754_infinity _ | S754_nan => None
  end.

Definition denotes (f : spec_float) (q : Q) : Prop := num_eq (to_Q f) q.

(** Modelled from the spec: p5's constant [PI], absent from the sources:
    [Math.PI], the binary64 number nearest to the mathematical constant. *)
Definition PI : spec_float := S754_finite false 7074237752028440 (-51).

(** Modelled from the spec: p5's [map], absent from the sources: the linear
    rescale, evaluated in binary64 in the order of the expression
    [(n - start1) / (stop1 - start1) * (stop2 - start2) + start2]. *)
Definition map (n start1 stop1 start2 stop2 : spec_float) : spec_float :=
  add (mul (div (sub n start1) (sub stop1 start1)) (sub stop2 start2)) start2.

Definition gridDim (canvasDim gridSize : Z) : option Z :=
  floor (div (of_Z canvasDim) (of_Z gridSize)).

Definition captureCoord (i n captureDim : Z) : option Z :=
  floor (mul (div (of_Z i) (of_Z n)) (of_Z captureDim)).

(** Both evaluations of the grid dimension and of every capture coordinate
    of the grid agree, for an integral [gridSize]. *)
Definition agrees (canvasDim captureDim gridSize : Z) : bool :=
  let n := exactGridDim canvasDim gridSize in
  match gridDim canvasDim gridSize with
  | Some n' =>
      (n' =? n)%Z &&
      forallb (fun i => match captureCoord i n captureDim with
                        | Some c => (c =? exactCaptureCoord i n captureDim)%Z
                        | None => false
                        end)
              (range n)
  | None => false
  end.

End Binary64.

(** The check of [Binary64.agrees] on the sketch's session: a 1280 x 720
    canvas, a 192 x 108 capture and the even grid sizes from 10 to 40. *)
Definition sessionAgrees : bool :=
  forallb (fun k => Binary64.agrees canvasWidth 192 (2 * k)
                    && Binary64.agrees canvasHeight 108 (2 * k))
          (List.map (fun k => (k + 5)%Z) (range 16)).

(** ** Shape of a frame *)

(** Number of calls issued per cell and before the loops. *)
Definition callsPerCell : nat := 7.
Definition callsBeforeGrid : nat := 5.

(** The calls of one row of cells. *)
Definition row (s : Sketch) (cols rows y : Z) : list DrawCall :=
  flat_map (fun x => cell s cols rows x y) (range cols).

(** Position of the [j]-th call of the cell [(x, y)] in the calls of the
    loops. *)
Definition cellIndex (cols x y : Z) (j : nat) : nat :=
  (Z.to_nat y * (Z.to_nat cols * callsPerCell) + (Z.to_nat x * callsPerCell + j))%nat.

Definition isCylinder (c : DrawCall) : bool :=
  match c with cylinder _ _ => true | _ => false end.

(** Number of disks among rendering calls. *)
Definition countDisks (calls : list DrawCall) : nat :=
  length (filter isCylinder calls).

(** The documented ranges of the two adjustable globals. *)
Definition config_in_range (s : Sketch) : Prop :=
  (10 <= gridSize s <= 40) /\ (5 <= diskRadius s <= 30).

(** ** Sample inputs *)

(** An image whose byte at index [i] is [i mod 256]. *)
Definition indexFrame (n : nat) : list Z :=
  List.map (fun i => (Z.of_nat i mod 256)%Z) (seq 0 n).

(** The first frame of a session: the globals are those left by [setup] and
    the camera shows a uniformly grey 192 x 108 image. *)
Definition greyFrame : list Z := repeat 128%Z (192 * 108 * 4).

Definition firstHost : Host :=
  {| width := canvasWidth; height := canvasHeight;
     mouseX := 640; mouseY := 360; video := greyFrame |}.

(** ** Key events and transformation stack *)

(** The events of the keys the sketch reacts to, and of the space key. *)
Definition upKey : KeyEvent := {| key := "ArrowUp"; keyCode := UP_ARROW |}.
Definition downKey : KeyEvent := {| key := "ArrowDown"; keyCode := DOWN_ARROW |}.
Definition leftBracket : KeyEvent := {| key := "["; keyCode := 219 |}.
Definition rightBracket : KeyEvent := {| key := "]"; keyCode := 221 |}.
Definition spaceKey : KeyEvent := {| key := " "; keyCode := 32 |}.

(** Depth of the stack of saved drawing states after a sequence of calls
    issued at depth [d]: [push] saves a state and [pop] restores the last one
    saved.  The result is [None] when a [pop] finds nothing saved or when
    more than [limit] states are saved at once. *)
Fixpoint stackDepth (limit : nat) (calls : list DrawCall) (d : nat) : option nat :=
  match calls with
  | [] => Some d
  | push :: rest =>
      if (S d <=? limit)%nat then stackDepth limit rest (S d) else None
  | pop :: rest =>
      match d with O => None | S d' => stackDepth limit rest d' end
  | _ :: rest => stackDepth limit rest d
  end.

(** The host of a frame with the pointer moved to [(x, y)]. *)
Definition withMouse (h : Host) (x y : Q) : Host :=
  {| width := width h; height := height h;
     mouseX := x; mouseY := y; video := video h |}.

(** Index of the byte of channel [c] of the pixel [(x, y)] in a pixel array
    [captureWidth] pixels wide (line 56 and the reads of lines 59-61). *)
Definition byteIndex (captureWidth x y c : Z) : Z :=
  ((y * captureWidth + x) * 4 + c)%Z.

(** ** The sketch on binary64 numbers

    The frame routine as JavaScript evaluates it: every number is a binary64
    number and every arithmetic operation is the correctly rounded one.  Loop
    counters and array indices are the integers they hold. *)

Module Sketch64.

(** A number literal with an integral value. *)
Definition lit (z : Z) : spec_float := Binary64.of_Z z.

(** A value read from the pixel array and used as a number: [undefined]
    becomes [NaN]. *)
Definition of_value (v : option Z) : spec_float :=
  match v with Some z => Binary64.of_Z z | None => S754_nan end.

(** [Math.floor]: a finite number is rounded down to an integer, which is a
    binary64 number again; zeros, infinities and [NaN] are returned as they
    are. *)
Definition floor (f : spec_float) : spec_float :=
  match f with
  | S754_finite _ _ _ =>
      match Binary64.floor f with Some n => Binary64.of_Z n | None => f end
  | _ => f
  end.

(** The array index denoted by a number: a non-negative integer. *)
Definition index (i : spec_float) : option Z :=
  match i with
  | S754_zero _ => Some 0%Z
  | S754_finite false m e =>
      if (0 <=? e)%Z then Some (Zpos m * 2 ^ e)%Z
      else if (Zpos m mod 2 ^ (- e) =? 0)%Z then Some (Zpos m / 2 ^ (- e))%Z
           else None
  | _ => None
  end.

(** [pixels[i]]. *)
Definition read (pixels : list Z) (i : spec_float) : option Z :=
  match index i with Some k => get pixels k | None => None end.

(** [for (let i = 0; i < n; i++)]: the number of iterations, which is the
    least integer that is not below [n], or 0 when [n] is negative; [None]
    when the loop never ends, which happens when [n] is [Infinity] and when
    [n] exceeds 2^53, where [i++] no longer changes [i].  The test fails at
    once when [n] is [NaN]. *)
Definition loopCount (n : spec_float) : option Z :=
  match n with
  | S754_infinity false => None
  | S754_infinity true | S754_nan => Some 0%Z
  | _ =>
      match Binary64.floor (SFopp n) with
      | Some k => if (2 ^ 53 <? - k)%Z then None else Some (Z.max 0 (- k))
      | None => Some 0%Z
      end
  end.

Record Sketch : Type := mkSketch {
  capture : Capture.t;
  gridSize : spec_float;
  diskRadius : spec_float;
  scaleValue : spec_float
}.

Record Host : Type := mkHost {
  width : Z;
  height : Z;
  mouseX : spec_float;
  mouseY : spec_float;
  video : list Z
}.

Inductive DrawCall : Type :=
| background (v : spec_float)
| ambientLight (v : spec_float)
| directionalLight (r g b x y z : spec_float)
| pointLight (r g b x y z : spec_float)
| translate (x y z : spec_float)
| push
| rotateX (angle : spec_float)
| specularMaterial (r g b : option Z)
| shininess (s : spec_float)
| cylinder (radius h : spec_float)
| pop.

(** Lines 45-46: [floor(width / gridSize)]. *)
Definition gridDim (canvasDim : Z) (gridSize : spec_float) : spec_float :=
  floor (Binary64.div (lit canvasDim) gridSize).

(** Lines 52-53: [floor((i / n) * captureDim)]. *)
Definition captureCoord (i : Z) (n : spec_float) (captureDim : Z) : spec_float :=
  floor (Binary64.mul (Binary64.div (lit i) n) (lit captureDim)).

(** Line 56: [(captureY * capture.width + captureX) * 4]. *)
Definition pixelOffset (captureWidth captureHeight : Z) (cols rows : spec_float)
           (x y : Z) : spec_float :=
  let captureX := captureCoord x cols captureWidth in
  let captureY := captureCoord y rows captureHeight in
  Binary64.mul (Binary64.add (Binary64.mul captureY (lit captureWidth)) captureX)
               (lit 4).

(** Line 64: [(r + g + b) / 3]. *)
Definition brightness (r g b : option Z) : spec_float :=
  Binary64.div (Binary64.add (Binary64.add (of_value r) (of_value g)) (of_value b))
               (lit 3).

(** Line 68: [map(brightness, 0, 255, 0, PI)]. *)
Definition rotationOf (brightness : spec_float) : spec_float :=
  Binary64.map brightness (lit 0) (lit 255) (lit 0) Binary64.PI.

(** Line 71: [map(brightness, 0, 255, -100, 100)]. *)
Definition zDepthOf (brightness : spec_float) : spec_float :=
  Binary64.map brightness (lit 0) (lit 255) (lit (-100)) (lit 100).

(** The README's conversion of a pixel to a hue angle (section "RGB to
    HSB"): [map(brightness, 0, 255, 0, 360)]. *)
Definition hsbValue (brightness : spec_float) : spec_float :=
  Binary64.map brightness (lit 0) (lit 255) (lit 0) (lit 360).

(** Lines 74-75: [i * gridSize + gridSize / 2]. *)
Definition position (i : Z) (gridSize : spec_float) : spec_float :=
  Binary64.add (Binary64.mul (lit i) gridSize) (Binary64.div gridSize (lit 2)).

(** Lines 51-98: the body of the inner loop for the cell [(x, y)]. *)
Definition cell (s : Sketch) (cols rows : spec_float) (x y : Z) : list DrawCall :=
  let c := capture s in
  let offset := pixelOffset (Capture.width c) (Capture.height c) cols rows x y in
  let r := read (Capture.pixels c) offset in
  let g := read (Capture.pixels c) (Binary64.add offset (lit 1)) in
  let b := read (Capture.pixels c) (Binary64.add offset (lit 2)) in
  let brightness := brightness r g b in
  let rotationX := rotationOf brightness in
  let zDepth := zDepthOf brightness in
  let xPos := position x (gridSize s) in
  let yPos := position y (gridSize s) in
  [ push;
    translate xPos yPos zDepth;
    rotateX rotationX;
    specularMaterial r g b;
    shininess (lit 20);
    cylinder (diskRadius s) (lit 2);
    pop ].

(** Lines 23-42: the calls issued before the loops. *)
Definition prelude (h : Host) : list DrawCall :=
  let locX := Binary64.sub (mouseX h) (Binary64.div (lit (width h)) (lit 2)) in
  let locY := Binary64.sub (mouseY h) (Binary64.div (lit (height h)) (lit 2)) in
  [ background (lit 20);
    ambientLight (lit 60);
    directionalLight (lit 255) (lit 255) (lit 255)
                     (Binary64.div (lit 1) (lit 4)) (Binary64.div (lit 1) (lit 4))
                     (lit 1);
    pointLight (lit 200) (lit 200) (lit 255) locX locY (lit 200);
    translate (Binary64.div (SFopp (lit (width h))) (lit 2))
              (Binary64.div (SFopp (lit (height h))) (lit 2)) (lit 0) ].

(** Lines 49-100: the nested loops over [nrows] rows of [ncols] cells. *)
Definition grid (s : Sketch) (cols rows : spec_float) (ncols nrows : Z)
  : list DrawCall :=
  flat_map (fun y => flat_map (fun x => cell s cols rows x y) (range ncols))
           (range nrows).

(** One frame: the globals after it and the rendering calls it issued, or
    [None] when one of its loops never ends.  The inner loop is not reached
    when the outer one does not run. *)
Definition draw (s : Sketch) (h : Host) : option (Sketch * list DrawCall) :=
  let s' := {| capture := loadPixels (capture s) (video h);
               gridSize := gridSize s;
               diskRadius := diskRadius s;
               scaleValue := scaleValue s |} in
  let cols := gridDim (width h) (gridSize s') in
  let rows := gridDim (height h) (gridSize s') in
  match loopCount rows with
  | None => None
  | Some nrows =>
      if (nrows <=? 0)%Z then Some (s', prelude h)
      else match loopCount cols with
           | None => None
           | Some ncols => Some (s', prelude h ++ grid s' cols rows ncols nrows)
           end
  end.

(** The globals after [setup]. *)
Definition setup : Sketch :=
  let scaleValue := lit 10 in
  let size (n : Z) :=
    match Binary64.floor (Binary64.div (lit n) scaleValue) with
    | Some d => d
    | None => 0%Z
    end in
  {| capture := {| Capture.width := size 1920%Z;
                   Capture.height := size 1080%Z;
                   Capture.pixels := [] |};
     gridSize := lit 20;
     diskRadius := lit 15;
     scaleValue := scaleValue |}.

Definition isCylinder (c : DrawCall) : bool :=
  match c with cylinder _ _ => true | _ => false end.

(** Number of disks among rendering calls. *)
Definition countDisks (calls : list DrawCall) : nat :=
  List.length (filter isCylinder calls).

End Sketch64.

(** Sample inputs of the binary64 model: the 10 x 10 capture on a 100 x 100
    canvas, and the first frame of a session. *)
Definition sketch64_10 : Sketch64.Sketch :=
  {| Sketch64.capture :=
       {| Capture.width := 10; Capture.height := 10; Capture.pixels := [] |};
     Sketch64.gridSize := Sketch64.lit 10;
     Sketch64.diskRadius := Sketch64.lit 15;
     Sketch64.scaleValue := Sketch64.lit 10 |}.

Definition host64_10 : Sketch64.Host :=
  {| Sketch64.width := 100; Sketch64.height := 100;
     Sketch64.mouseX := Sketch64.lit 0; Sketch64.mouseY := Sketch64.lit 0;
     Sketch64.video := indexFrame 400 |}.

Definition firstHost64 : Sketch64.Host :=
  {| Sketch64.width := canvasWidth; Sketch64.height := canvasHeight;
     Sketch64.mouseX := Sketch64.lit 640; Sketch64.mouseY := Sketch64.lit 360;
     Sketch64.video := greyFrame |}.

(** ** Checks by evaluation

    Facts about binary64 arithmetic on the finitely many values the sketch
    works with are established by evaluating the operations on all of
    them. *)

Definition sf_eqb (a b : spec_float) : bool :=
  match a, b with
  | S754_zero s, S754_zero s' => Bool.eqb s s'
  | S754_infinity s, S754_infinity s' => Bool.eqb s s'
  | S754_nan, S754_nan => true
  | S754_finite s m e, S754_finite s' m' e' =>
      Bool.eqb s s' && Pos.eqb m m' && Z.eqb e e'
  | _, _ => false
  end.

(** [fa + x = y] for the pairs [(x, y)] of two lists taken in order. *)
Definition sumRow (fa : spec_float) (xs ys : list spec_float) : bool :=
  forallb (fun p => sf_eqb (Binary64.add fa (fst p)) (snd p)) (combine xs ys).

(** The integers from 0 to 765 as binary64 numbers. *)
Definition byteLits : list spec_float := List.map Sketch64.lit (range 766).

(** The sum of the integer [a] and every byte is exact. *)
Definition byteSumsChecked (a : Z) : bool :=
  sumRow (Sketch64.lit a) (firstn 256 byteLits) (skipn (Z.to_nat a) byteLits).

(** The brightness of three bytes of sum [s]. *)
Definition brightnessOfSum (s : Z) : spec_float :=
  Binary64.div (Sketch64.lit s) (Sketch64.lit 3).

(** The relative rounding error of binary64: 2^-53. *)
Definition roundingUnit : Q := 1 # 9007199254740992.

(** The brightness for the sum [s] is finite, lies in [0, 255], is within the
    rounding unit of [s / 3] and equals it when 3 divides [s]. *)
Definition brightnessChecked (s : Z) : bool :=
  match Binary64.to_Q (brightnessOfSum s) with
  | Some q =>
      Qle_bool 0 q && Qle_bool q 255 &&
      Qle_bool (inject_Z s - inject_Z s * roundingUnit) (3 * q) &&
      Qle_bool (3 * q) (inject_Z s + inject_Z s * roundingUnit) &&
      (negb (s mod 3 =? 0)%Z || Qeq_bool (3 * q) (inject_Z s))
  | None => false
  end.

(** A list of finite numbers in non-decreasing order. *)
Fixpoint nondecreasing (l : list spec_float) : bool :=
  match l with
  | [] => true
  | a :: rest =>
      match Binary64.to_Q a with
      | None => false
      | Some x =>
          match rest with
          | [] => true
          | b :: _ =>
              match Binary64.to_Q b with
              | Some y => Qle_bool x y && nondecreasing rest
              | None => false
              end
          end
      end
  end.

(** The rotations and depths for the sums 0 to 765. *)
Definition rotations : list spec_float :=
  List.map (fun s => Sketch64.rotationOf (brightnessOfSum s)) (range 766).

Definition depths : list spec_float :=
  List.map (fun s => Sketch64.zDepthOf (brightnessOfSum s)) (range 766).

(** The loops of a frame on a canvas dimension run [canvasDim / g] times for
    the integral grid size [g]. *)
Definition gridDimChecked (canvasDim g : Z) : bool :=
  match Sketch64.loopCount (Sketch64.gridDim canvasDim (Sketch64.lit g)) with
  | Some n => (n =? canvasDim / g)%Z
  | None => false
  end.

Definition gridDimsChecked (k : Z) : bool :=
  gridDimChecked canvasWidth (k + 1) && gridDimChecked canvasHeight (k + 1).

(** The hue angles for the sums 0 to 765. *)
Definition hues : list spec_float :=
  List.map (fun s => Sketch64.hsbValue (brightnessOfSum s)) (range 766).

(** The position of the cell [i] for the integral grid size [g] is the exact
    [i * g + g / 2]. *)
Definition positionChecked (g i : Z) : bool :=
  match Binary64.to_Q (Sketch64.position i (Sketch64.lit g)) with
  | Some q => Qeq_bool q (inject_Z i * inject_Z g + inject_Z g / 2)
  | None => false
  end.

Definition positionsChecked (k : Z) : bool :=
  forallb (positionChecked (k + 10)) (range (canvasWidth / (k + 10))).

(** The capture coordinates that a frame samples along one direction, for
    the integral grid size [g]: one per cell, in the order of the cells. *)
Definition sampledCoords (canvasDim captureDim g : Z) : list (option Z) :=
  let n := Sketch64.gridDim canvasDim (Sketch64.lit g) in
  List.map (fun i => Sketch64.index (Sketch64.captureCoord i n captureDim))
           (range (canvasDim / g)).

(** A list of integers above [prev] and below [bound], in strictly
    increasing order. *)
Fixpoint increasing (prev bound : Z) (l : list (option Z)) : bool :=
  match l with
  | [] => true
  | Some c :: rest => (prev <? c)%Z && (c <? bound)%Z && increasing c bound rest
  | None :: _ => false
  end.

Definition samplesChecked (k : Z) : bool :=
  increasing (-1) 192 (sampledCoords canvasWidth 192 (k + 10)) &&
  increasing (-1) 108 (sampledCoords canvasHeight 108 (k + 10)).

(** ** The README's grid of rectangles (section "Nested Loops for Grids") *)

(** [for (let v = start; v < limit; v += step)] on binary64 numbers: the
    values taken by the counter, or [None] when the loop is still running
    after [fuel] iterations. *)
Fixpoint stepLoop (fuel : nat) (v limit step : spec_float)
  : option (list spec_float) :=
  if SFltb v limit then
    match fuel with
    | O => None
    | S fuel' =>
        option_map (cons v) (stepLoop fuel' (Binary64.add v step) limit step)
    end
  else Some [].

(** A call [rect(x, y, w, h)]. *)
Record Rect : Type :=
  rect { rectX : spec_float; rectY : spec_float; rectW : spec_float; rectH : spec_float }.

(** The nested loops: for every [y], the inner loop draws one square per
    [x]. *)
Fixpoint gridLoop (fuel : nat) (y width height gridSize : spec_float)
  : option (list Rect) :=
  if SFltb y height then
    match fuel with
    | O => None
    | S fuel' =>
        match stepLoop fuel (Sketch64.lit 0) width gridSize with
        | None => None
        | Some xs =>
            option_map (app (List.map (fun x => rect x y gridSize gridSize) xs))
                       (gridLoop fuel' (Binary64.add y gridSize) width height gridSize)
        end
    end
  else Some [].

(** Two lists of the same numbers. *)
Fixpoint sameNumbers (xs ys : list spec_float) : bool :=
  match xs, ys with
  | [], [] => true
  | x :: xs', y :: ys' => sf_eqb x y && sameNumbers xs' ys'
  | _, _ => false
  end.

(** The number of multiples of [g] from 0 that lie below [limit], and these
    multiples. *)
Definition stepCount (limit g : Z) : Z := ((limit + g - 1) / g)%Z.

Definition multiples (limit g : Z) : list spec_float :=
  List.map (fun k => Sketch64.lit (k * g)) (range (stepCount limit g)).

(** The stepping loop up to [limit] with the integral step [g] takes the
    multiples of [g] below [limit]. *)
Definition stepLoopChecked (limit g : Z) : bool :=
  match stepLoop (Z.to_nat limit) (Sketch64.lit 0) (Sketch64.lit limit)
                 (Sketch64.lit g) with
  | Some xs => sameNumbers xs (multiples limit g)
  | None => false
  end.

Definition stepLoopsChecked (k : Z) : bool :=
  stepLoopChecked canvasWidth (k + 1) && stepLoopChecked canvasHeight (k + 1).

(** * Properties *)

(** ** Arithmetic of the sampler *)

Lemma floor_inject_div (a b : Z) :
  floor (inject_Z a / inject_Z b) = (a / b)%Z.
Proof. unfold floor. symmetry. apply Zdiv_Qdiv. Qed.

(** With exact arithmetic the capture coordinate is an integer quotient. *)
Lemma captureCoord_div (i n d : Z) :
  (0 < n)%Z -> captureCoord i n d = (i * d / n)%Z.
Proof.
  intros Hn. unfold captureCoord.
  rewrite <- floor_inject_div. unfold floor.
  apply Qfloor_comp.
  rewrite inject_Z_mult.
  assert (Hq : ~ inject_Z n == 0).
  { intros E. apply (proj1 (inject_Z_injective n 0)) in E. lia. }
  field. exact Hq.
Qed.

Lemma captureCoord_bounds (i n d : Z) :
  (0 <= i < n)%Z -> (1 <= d)%Z -> (0 <= captureCoord i n d <= d - 1)%Z.
Proof.
  intros Hi Hd. rewrite captureCoord_div by lia. split.
  - apply Z.div_pos; nia.
  - enough (i * d / n < d)%Z by lia.
    apply Z.div_lt_upper_bound; nia.
Qed.

Lemma pixelOffset_bounds (W H cols rows x y : Z) :
  (1 <= W)%Z -> (1 <= H)%Z -> (0 <= x < cols)%Z -> (0 <= y < rows)%Z ->
  (0 <= pixelOffset W H cols rows x y <= (W * H - 1) * 4)%Z.
Proof.
  intros HW HH Hx Hy. unfold pixelOffset.
  pose proof (captureCoord_bounds x cols W Hx HW).
  pose proof (captureCoord_bounds y rows H Hy HH).
  nia.
Qed.

Lemma get_in_bounds (pixels : list Z) (i : Z) :
  (0 <= i < Z.of_nat (length pixels))%Z -> exists v, get pixels i = Some v.
Proof.
  intros Hi. unfold get.
  destruct (i <? 0)%Z eqn:E; [ apply Z.ltb_lt in E; lia | ].
  destruct (nth_error pixels (Z.to_nat i)) eqn:N; [ eauto | ].
  apply nth_error_None in N. lia.
Qed.

Lemma get_out_of_bounds (pixels : list Z) (i : Z) :
  (i < 0 \/ Z.of_nat (length pixels) <= i)%Z -> get pixels i = None.
Proof.
  intros Hi. unfold get.
  destruct (i <? 0)%Z eqn:E; [ reflexivity | ].
  apply Z.ltb_ge in E. apply nth_error_None. lia.
Qed.

(** ** Frames: loops that emit a fixed number of calls per iteration *)

Section Blocks.
Context {A B : Type}.
Variable f : A -> list B.
Variable k : nat.
Hypothesis block_length : forall a, length (f a) = k.

Lemma flat_map_block_length (l : list A) :
  length (flat_map f l) = (length l * k)%nat.
Proof.
  induction l as [ | a l IH ]; simpl; [ reflexivity | ].
  rewrite length_app, block_length, IH. reflexivity.
Qed.

Lemma nth_error_flat_map_block (l : list A) (i j : nat) (a : A) :
  nth_error l i = Some a -> (j < k)%nat ->
  nth_error (flat_map f l) (i * k + j) = nth_error (f a) j.
Proof.
  revert i. induction l as [ | b l IH ]; intros i Hi Hj.
  - destruct i; discriminate.
  - destruct i as [ | i ]; simpl in *.
    + injection Hi as ->.
      rewrite nth_error_app1 by (rewrite block_length; exact Hj).
      reflexivity.
    + rewrite nth_error_app2 by (rewrite block_length; lia).
      rewrite block_length.
      replace (k + i * k + j - k)%nat with (i * k + j)%nat by lia.
      apply IH; assumption.
Qed.
End Blocks.

Section Counting.
Context {A B : Type}.
Variable p : B -> bool.
Variable f : A -> list B.
Variable c : nat.
Hypothesis block_count : forall a, length (filter p (f a)) = c.

Lemma flat_map_block_count (l : list A) :
  length (filter p (flat_map f l)) = (length l * c)%nat.
Proof.
  induction l as [ | a l IH ]; simpl; [ reflexivity | ].
  rewrite filter_app, length_app, block_count, IH. reflexivity.
Qed.
End Counting.

Lemma range_length (n : Z) : length (range n) = Z.to_nat n.
Proof. unfold range. rewrite length_map, length_seq. reflexivity. Qed.

Lemma nth_error_range (n i : Z) :
  (0 <= i < n)%Z -> nth_error (range n) (Z.to_nat i) = Some i.
Proof.
  intros Hi. unfold range.
  rewrite nth_error_map, nth_error_seq.
  destruct (Nat.ltb_spec (Z.to_nat i) (Z.to_nat n)) as [ _ | Hge ]; [ | lia ].
  simpl. f_equal. lia.
Qed.

Lemma In_range (n i : Z) : In i (range n) <-> (0 <= i < n)%Z.
Proof.
  unfold range. rewrite in_map_iff. split.
  - intros [k [<- Hk]]. apply in_seq in Hk. lia.
  - intros Hi. exists (Z.to_nat i). split; [ lia | apply in_seq; lia ].
Qed.

Lemma cell_length s cols rows x y : length (cell s cols rows x y) = callsPerCell.
Proof. reflexivity. Qed.

Lemma prelude_length h : length (prelude h) = callsBeforeGrid.
Proof. reflexivity. Qed.

Lemma row_length s cols rows y :
  length (row s cols rows y) = (Z.to_nat cols * callsPerCell)%nat.
Proof.
  unfold row.
  rewrite (flat_map_block_length _ callsPerCell) by (intros; apply cell_length).
  rewrite range_length. reflexivity.
Qed.

Lemma nth_error_grid s cols rows x y j :
  (0 <= x < cols)%Z -> (0 <= y < rows)%Z -> (j < callsPerCell)%nat ->
  nth_error (grid s cols rows) (cellIndex cols x y j)
  = nth_error (cell s cols rows x y) j.
Proof.
  intros Hx Hy Hj. unfold grid, cellIndex.
  rewrite (nth_error_flat_map_block
             (fun y => row s cols rows y) (Z.to_nat cols * callsPerCell)
             (fun y => row_length s cols rows y)
             (range rows) (Z.to_nat y) _ y (nth_error_range rows y Hy)).
  - unfold row.
    apply (nth_error_flat_map_block
             (fun x => cell s cols rows x y) callsPerCell
             (fun x => cell_length s cols rows x y)
             (range cols) (Z.to_nat x) j x (nth_error_range cols x Hx) Hj).
  - unfold callsPerCell in *. nia.
Qed.

Lemma nth_error_draw s h x y j :
  let s' := fst (draw s h) in
  let cols := gridDim (width h) (gridSize s) in
  let rows := gridDim (height h) (gridSize s) in
  (0 <= x < cols)%Z -> (0 <= y < rows)%Z -> (j < callsPerCell)%nat ->
  nth_error (snd (draw s h)) (callsBeforeGrid + cellIndex cols x y j)
  = nth_error (cell s' cols rows x y) j.
Proof.
  intros s' cols rows Hx Hy Hj. unfold draw. cbn [snd fst gridSize].
  rewrite nth_error_app2 by (rewrite prelude_length; lia).
  rewrite prelude_length, Nat.add_comm, Nat.add_sub.
  apply nth_error_grid; assumption.
Qed.

(** ** Frame sampler *)



(** ** The mappings on exact numbers *)

Lemma map_depth (v : Q) : map v 0 255 (-100) 100 == v * (200 # 255) - 100.
Proof. unfold map. field. Qed.

Lemma map_rotation (v : Q) : map v 0 255 0 PI == v * (PI / 255).
Proof. unfold map. field. Qed.

(** ** Key presses *)

Lemma max_bounds (lo hi v : Q) : lo <= hi -> v <= hi -> lo <= max lo v <= hi.
Proof.
  intros Hlh Hv. unfold max. split.
  - apply Q.le_max_l.
  - apply Q.max_lub; assumption.
Qed.

Lemma min_bounds (lo hi v : Q) : lo <= hi -> lo <= v -> lo <= min hi v <= hi.
Proof.
  intros Hlh Hv. unfold min. split.
  - apply Q.min_glb; assumption.
  - apply Q.le_min_l.
Qed.

Lemma keyPressed_preserves (s : Sketch) (e : KeyEvent) :
  config_in_range s -> config_in_range (keyPressed s e).
Proof.
  intros [[Hg1 Hg2] [Hd1 Hd2]]. unfold config_in_range, keyPressed. cbn.
  split.
  - destruct (keyCode e =? UP_ARROW)%Z.
    + apply max_bounds; lra.
    + destruct (keyCode e =? DOWN_ARROW)%Z; [ apply min_bounds; lra | lra ].
  - destruct (String.eqb (key e) "[").
    + apply max_bounds; lra.
    + destruct (String.eqb (key e) "]"); [ apply min_bounds; lra | lra ].
Qed.

Lemma keysPressed_preserves (es : list KeyEvent) (s : Sketch) :
  config_in_range s -> config_in_range (keysPressed s es).
Proof.
  revert s. induction es as [ | e es IH ]; intros s Hs; simpl.
  - exact Hs.
  - apply IH, keyPressed_preserves, Hs.
Qed.

(** C6: from the initial globals ([gridSize = 20], [diskRadius = 15]) every
    finite sequence of key presses leaves [gridSize] in [10, 40] and
    [diskRadius] in [5, 30]. *)
Theorem keyPressed_invariant (es : list KeyEvent) :
  let s := keysPressed setup es in
  gridSize setup == 20 /\ diskRadius setup == 15 /\
  (10 <= gridSize s <= 40) /\ (5 <= diskRadius s <= 30).
Proof.
  intros s. split; [ reflexivity | split; [ reflexivity | ] ].
  apply keysPressed_preserves. unfold config_in_range. cbn. lra.
Qed.

(** ** Disks drawn by a frame *)

Lemma grid_disks s cols rows :
  countDisks (grid s cols rows) = (Z.to_nat rows * Z.to_nat cols)%nat.
Proof.
  unfold countDisks, grid.
  rewrite (flat_map_block_count isCylinder _ (Z.to_nat cols * 1)).
  - rewrite range_length. lia.
  - intros y.
    rewrite (flat_map_block_count isCylinder _ 1) by reflexivity.
    rewrite range_length. reflexivity.
Qed.

(** ** Effect of a frame on the globals *)

(** C8, as stated, fails on the first frame: [capture.pixels] is empty before
    it and holds the camera image after it. *)
Lemma frame_keeps_globals_counterexample :
  ~ (Capture.pixels (capture (fst (draw setup firstHost)))
       = Capture.pixels (capture setup) /\
     gridSize (fst (draw setup firstHost)) = gridSize setup /\
     diskRadius (fst (draw setup firstHost)) = diskRadius setup).
Proof.
  intros [Hpixels _].
  change (greyFrame = []) in Hpixels.
  apply (f_equal (@length Z)) in Hpixels.
  unfold greyFrame in Hpixels. rewrite repeat_length in Hpixels.
  cbn [length] in Hpixels. lia.
Qed.

(** C8, amended: a frame changes neither [gridSize] nor [diskRadius] nor the
    dimensions of the capture, and it writes the pixel buffer only through
    its call of [capture.loadPixels()]: after the frame the buffer holds the
    camera image loaded by that call, so a frame that finds this image
    already loaded leaves all globals as they were. *)
Theorem frame_keeps_globals (s : Sketch) (h : Host) :
  let s' := fst (draw s h) in
  gridSize s' = gridSize s /\
  diskRadius s' = diskRadius s /\
  Capture.width (capture s') = Capture.width (capture s) /\
  Capture.height (capture s') = Capture.height (capture s) /\
  Capture.pixels (capture s') = video h /\
  (Capture.pixels (capture s) = video h -> s' = s) /\
  fst (draw s' h) = s'.
Proof.
  intros s'. repeat split.
  destruct s as [[w ht px] g d sc]. cbn. intros ->. reflexivity.
Qed.

Lemma frame_keeps_globals_witness :
  let s := fst (draw setup firstHost) in fst (draw s firstHost) = s.
Proof.
  intros s.
  apply (proj1 (proj2 (proj2 (proj2 (proj2 (proj2
    (frame_keeps_globals s firstHost))))))).
  reflexivity.
Defined.

(** ** Frames over a well-formed capture *)

Lemma get_byte (pixels : list Z) (i v : Z) :
  Forall (fun v => (0 <= v <= 255)%Z) pixels -> get pixels i = Some v ->
  (0 <= v <= 255)%Z.
Proof.
  intros Hall Hget. unfold get in Hget.
  destruct (i <? 0)%Z; [ discriminate | ].
  apply nth_error_In in Hget. rewrite Forall_forall in Hall. apply Hall, Hget.
Qed.

(** When the loaded image has the size of the capture, every cell of the
    grid reads three bytes of it: the material of its disk is defined and so
    is the brightness that places and turns the disk. *)
Lemma frame_reads_defined (s : Sketch) (h : Host) (x y : Z) :
  let cols := gridDim (width h) (gridSize s) in
  let rows := gridDim (height h) (gridSize s) in
  Capture.well_formed (loadPixels (capture s) (video h)) ->
  (0 <= x < cols)%Z -> (0 <= y < rows)%Z ->
  exists r g b : Z,
    nth_error (snd (draw s h)) (callsBeforeGrid + cellIndex cols x y 3)
    = Some (specularMaterial (Some r) (Some g) (Some b)) /\
    nth_error (snd (draw s h)) (callsBeforeGrid + cellIndex cols x y 2)
    = Some (rotateX (rotationOf (brightness (Some r) (Some g) (Some b)))) /\
    (0 <= r <= 255)%Z /\ (0 <= g <= 255)%Z /\ (0 <= b <= 255)%Z.
Proof.
  intros cols rows [HW [HH [Hlen Hbytes]]] Hx Hy. cbn in HW, HH, Hlen, Hbytes.
  pose proof (pixelOffset_bounds _ _ cols rows x y HW HH Hx Hy) as Hoff.
  set (offset := pixelOffset (Capture.width (capture s))
                             (Capture.height (capture s)) cols rows x y) in *.
  destruct (get_in_bounds (video h) offset) as [r Hr]; [ lia | ].
  destruct (get_in_bounds (video h) (offset + 1)) as [g Hg]; [ lia | ].
  destruct (get_in_bounds (video h) (offset + 2)) as [b Hb]; [ lia | ].
  exists r, g, b.
  assert (H3 : (3 < callsPerCell)%nat) by (unfold callsPerCell; lia).
  assert (H2 : (2 < callsPerCell)%nat) by (unfold callsPerCell; lia).
  pose proof (nth_error_draw s h x y 3 Hx Hy H3) as E3.
  pose proof (nth_error_draw s h x y 2 Hx Hy H2) as E2.
  fold cols in E3, E2. rewrite E3, E2.
  unfold cell. cbn [nth_error fst draw capture loadPixels Capture.pixels
                    Capture.width Capture.height].
  fold cols rows offset. rewrite Hr, Hg, Hb.
  repeat split; eapply get_byte; eauto.
Qed.

(** ** The exact model and binary64 evaluation *)

Lemma gridDim_comp (canvasDim : Z) (g g' : Q) :
  g == g' -> gridDim canvasDim g = gridDim canvasDim g'.
Proof.
  intros E. unfold gridDim, floor. apply Qfloor_comp. rewrite E. reflexivity.
Qed.

(** The grid sizes that key presses can reach are the even numbers from 10
    to 40. *)
Lemma gridSize_reachable (es : list KeyEvent) :
  exists k : Z, (5 <= k <= 20)%Z /\ gridSize (keysPressed setup es) == inject_Z (2 * k).
Proof.
  assert (Hinit : exists k : Z, (5 <= k <= 20)%Z /\ gridSize setup == inject_Z (2 * k)).
  { exists 10%Z. split; [ lia | reflexivity ]. }
  unfold keysPressed. revert Hinit. generalize setup.
  induction es as [ | e es IH ]; intros s Hs; simpl; [ exact Hs | ].
  apply IH. destruct Hs as [k [Hk E]]. unfold keyPressed. cbn [gridSize].
  assert (Hm : gridSize s - 2 == inject_Z (2 * (k - 1))).
  { rewrite E. rewrite !inject_Z_mult.
    replace (k - 1)%Z with (k + -1)%Z by lia. rewrite inject_Z_plus. simpl. ring. }
  assert (Hp : gridSize s + 2 == inject_Z (2 * (k + 1))).
  { rewrite E. rewrite !inject_Z_mult, inject_Z_plus. simpl. ring. }
  assert (Hle : forall a b : Z, (a <= b)%Z -> inject_Z a <= inject_Z b).
  { intros a b Hab. rewrite <- Zle_Qle. exact Hab. }
  destruct (keyCode e =? UP_ARROW)%Z.
  - destruct (Z.eq_dec k 5) as [-> | Hne].
    + exists 5%Z. split; [ lia | ]. unfold max.
      rewrite Q.max_l; [ reflexivity | ]. rewrite Hm.
      change 10 with (inject_Z 10). apply Hle. lia.
    + exists (k - 1)%Z. split; [ lia | ]. unfold max.
      rewrite Q.max_r; [ exact Hm | ]. rewrite Hm.
      change 10 with (inject_Z 10). apply Hle. lia.
  - destruct (keyCode e =? DOWN_ARROW)%Z.
    + destruct (Z.eq_dec k 20) as [-> | Hne].
      * exists 20%Z. split; [ lia | ]. unfold min.
        rewrite Q.min_l; [ reflexivity | ]. rewrite Hp.
        change 40 with (inject_Z 40). apply Hle. lia.
      * exists (k + 1)%Z. split; [ lia | ]. unfold min.
        rewrite Q.min_r; [ exact Hp | ]. rewrite Hp.
        change 40 with (inject_Z 40). apply Hle. lia.
    + exists k. split; assumption.
Qed.

Lemma sessionAgrees_holds : sessionAgrees = true.
Proof. vm_compute. reflexivity. Qed.

Lemma agrees_spec (canvasDim captureDim g : Z) :
  Binary64.agrees canvasDim captureDim g = true ->
  let n := gridDim canvasDim (inject_Z g) in
  Binary64.gridDim canvasDim g = Some n /\
  (forall i, (0 <= i < n)%Z ->
     Binary64.captureCoord i n captureDim = Some (captureCoord i n captureDim)).
Proof.
  intros H n. unfold Binary64.agrees, exactGridDim, exactCaptureCoord in H.
  fold n in H.
  destruct (Binary64.gridDim canvasDim g) as [n' | ]; [ | discriminate ].
  apply andb_prop in H. destruct H as [Hn Hall].
  apply Z.eqb_eq in Hn. subst n'. split; [ reflexivity | ].
  intros i Hi. rewrite forallb_forall in Hall.
  specialize (Hall i (proj2 (In_range n i) Hi)).
  destruct (Binary64.captureCoord i n captureDim) as [c | ]; [ | discriminate ].
  apply Z.eqb_eq in Hall. congruence.
Qed.

(** X16: on every configuration that the sketch reaches (the canvas and the
    capture of [setup], any sequence of key presses) the binary64 evaluation
    of the grid dimensions and of the capture coordinates of every cell
    yields the integers of the exact model. *)
Lemma binary64_sampler_on_session (es : list KeyEvent) :
  let s := keysPressed setup es in
  let cols := gridDim canvasWidth (gridSize s) in
  let rows := gridDim canvasHeight (gridSize s) in
  exists g : Z,
    gridSize s == inject_Z g /\
    Binary64.gridDim canvasWidth g = Some cols /\
    Binary64.gridDim canvasHeight g = Some rows /\
    (forall x, (0 <= x < cols)%Z ->
       Binary64.captureCoord x cols 192 = Some (captureCoord x cols 192)) /\
    (forall y, (0 <= y < rows)%Z ->
       Binary64.captureCoord y rows 108 = Some (captureCoord y rows 108)).
Proof.
  intros s cols rows.
  destruct (gridSize_reachable es) as [k [Hk E]]. fold s in E.
  exists (2 * k)%Z. split; [ exact E | ].
  pose proof sessionAgrees_holds as Hall. unfold sessionAgrees in Hall.
  rewrite forallb_forall in Hall.
  assert (Hin : In k (List.map (fun k => (k + 5)%Z) (range 16))).
  { apply in_map_iff. exists (k - 5)%Z. split; [ lia | apply In_range; lia ]. }
  specialize (Hall k Hin). apply andb_prop in Hall. destruct Hall as [Hw Hh].
  apply agrees_spec in Hw. apply agrees_spec in Hh.
  unfold cols, rows. rewrite !(gridDim_comp _ _ _ E).
  destruct Hw as [Hw1 Hw2], Hh as [Hh1 Hh2]. repeat split; assumption.
Qed.

(** Outside the session the two evaluations can differ by one: for the cell
    7 of 10 columns over a capture 90 pixels wide, [(7 / 10) * 90] is rounded
    below 63. *)
Lemma binary64_sampler_may_differ :
  Binary64.captureCoord 7 10 90 = Some 62%Z /\ captureCoord 7 10 90 = 63%Z.
Proof. split; vm_compute; reflexivity. Qed.

(** * Further properties *)

(** ** Key presses: frame conditions, composition, round trips *)

Lemma max_absorb (lo a c : Q) : 0 <= c -> max lo (max lo a - c) == max lo (a - c).
Proof.
  intros Hc. unfold max.
  destruct (Q.max_spec lo a) as [[? E1] | [? E1]];
    destruct (Q.max_spec lo (Qmax lo a - c)) as [[? E2] | [? E2]];
    destruct (Q.max_spec lo (a - c)) as [[? E3] | [? E3]]; lra.
Qed.

Lemma min_absorb (hi a c : Q) : 0 <= c -> min hi (min hi a + c) == min hi (a + c).
Proof.
  intros Hc. unfold min.
  destruct (Q.min_spec hi a) as [[? E1] | [? E1]];
    destruct (Q.min_spec hi (Qmin hi a + c)) as [[? E2] | [? E2]];
    destruct (Q.min_spec hi (a + c)) as [[? E3] | [? E3]]; lra.
Qed.

Lemma max_eq_r (lo a : Q) : lo <= a -> max lo a == a.
Proof. intros H. unfold max. apply Q.max_r, H. Qed.

Lemma max_eq_l (lo a : Q) : a <= lo -> max lo a == lo.
Proof. intros H. unfold max. apply Q.max_l, H. Qed.

Lemma min_eq_r (hi a : Q) : a <= hi -> min hi a == a.
Proof. intros H. unfold min. apply Q.min_r, H. Qed.

Lemma min_eq_l (hi a : Q) : hi <= a -> min hi a == hi.
Proof. intros H. unfold min. apply Q.min_l, H. Qed.

Lemma max_comp (lo a b : Q) : a == b -> max lo a == max lo b.
Proof. intros E. unfold max. rewrite E. reflexivity. Qed.

Lemma min_comp (hi a b : Q) : a == b -> min hi a == min hi b.
Proof. intros E. unfold min. rewrite E. reflexivity. Qed.

Lemma keysPressed_app (s : Sketch) (es1 es2 : list KeyEvent) :
  keysPressed s (es1 ++ es2) = keysPressed (keysPressed s es1) es2.
Proof. unfold keysPressed. apply fold_left_app. Qed.

Lemma inject_nat_succ (n : nat) :
  inject_Z (Z.of_nat (S n)) == inject_Z (Z.of_nat n) + 1.
Proof. rewrite Nat2Z.inj_succ. unfold Z.succ. rewrite inject_Z_plus. reflexivity. Qed.

Lemma inject_nat_nonneg (n : nat) : 0 <= inject_Z (Z.of_nat n).
Proof. change 0 with (inject_Z 0). rewrite <- Zle_Qle. lia. Qed.

(** Effect of [n] presses of one key on the global it adjusts. *)
Lemma repeat_up (e : KeyEvent) (n : nat) (s : Sketch) :
  keyCode e = UP_ARROW -> 10 <= gridSize s ->
  gridSize (keysPressed s (repeat e n))
  == max 10 (gridSize s - 2 * inject_Z (Z.of_nat n)).
Proof.
  intros He. revert s. induction n as [ | n IH ]; intros s Hs.
  - cbn [repeat keysPressed fold_left]. rewrite max_eq_r; [ ring | ].
    change (inject_Z (Z.of_nat 0)) with 0. lra.
  - cbn [repeat]. change (keysPressed s (e :: repeat e n))
      with (keysPressed (keyPressed s e) (repeat e n)).
    assert (E : gridSize (keyPressed s e) = max 10 (gridSize s - 2)).
    { unfold keyPressed. cbn [gridSize]. rewrite He, Z.eqb_refl. reflexivity. }
    rewrite IH; rewrite E; [ | apply Q.le_max_l ].
    rewrite max_absorb.
    + apply max_comp. rewrite inject_nat_succ. ring.
    + pose proof (inject_nat_nonneg n). lra.
Qed.

Lemma repeat_down (e : KeyEvent) (n : nat) (s : Sketch) :
  keyCode e = DOWN_ARROW -> gridSize s <= 40 ->
  gridSize (keysPressed s (repeat e n))
  == min 40 (gridSize s + 2 * inject_Z (Z.of_nat n)).
Proof.
  intros He. revert s. induction n as [ | n IH ]; intros s Hs.
  - cbn [repeat keysPressed fold_left]. rewrite min_eq_r; [ ring | ].
    change (inject_Z (Z.of_nat 0)) with 0. lra.
  - cbn [repeat]. change (keysPressed s (e :: repeat e n))
      with (keysPressed (keyPressed s e) (repeat e n)).
    assert (E : gridSize (keyPressed s e) = min 40 (gridSize s + 2)).
    { unfold keyPressed. cbn [gridSize]. rewrite He. reflexivity. }
    rewrite IH; rewrite E; [ | apply Q.le_min_l ].
    rewrite min_absorb.
    + apply min_comp. rewrite inject_nat_succ. ring.
    + pose proof (inject_nat_nonneg n). lra.
Qed.

Lemma repeat_left (e : KeyEvent) (n : nat) (s : Sketch) :
  key e = "["%string -> 5 <= diskRadius s ->
  diskRadius (keysPressed s (repeat e n))
  == max 5 (diskRadius s - 2 * inject_Z (Z.of_nat n)).
Proof.
  intros He. revert s. induction n as [ | n IH ]; intros s Hs.
  - cbn [repeat keysPressed fold_left]. rewrite max_eq_r; [ ring | ].
    change (inject_Z (Z.of_nat 0)) with 0. lra.
  - cbn [repeat]. change (keysPressed s (e :: repeat e n))
      with (keysPressed (keyPressed s e) (repeat e n)).
    assert (E : diskRadius (keyPressed s e) = max 5 (diskRadius s - 2)).
    { unfold keyPressed. cbn [diskRadius]. rewrite He. reflexivity. }
    rewrite IH; rewrite E; [ | apply Q.le_max_l ].
    rewrite max_absorb.
    + apply max_comp. rewrite inject_nat_succ. ring.
    + pose proof (inject_nat_nonneg n). lra.
Qed.

Lemma repeat_right (e : KeyEvent) (n : nat) (s : Sketch) :
  key e = "]"%string -> diskRadius s <= 30 ->
  diskRadius (keysPressed s (repeat e n))
  == min 30 (diskRadius s + 2 * inject_Z (Z.of_nat n)).
Proof.
  intros He. revert s. induction n as [ | n IH ]; intros s Hs.
  - cbn [repeat keysPressed fold_left]. rewrite min_eq_r; [ ring | ].
    change (inject_Z (Z.of_nat 0)) with 0. lra.
  - cbn [repeat]. change (keysPressed s (e :: repeat e n))
      with (keysPressed (keyPressed s e) (repeat e n)).
    assert (E : diskRadius (keyPressed s e) = min 30 (diskRadius s + 2)).
    { unfold keyPressed. cbn [diskRadius]. rewrite He. reflexivity. }
    rewrite IH; rewrite E; [ | apply Q.le_min_l ].
    rewrite min_absorb.
    + apply min_comp. rewrite inject_nat_succ. ring.
    + pose proof (inject_nat_nonneg n). lra.
Qed.

(** X1: after [n] presses of one key the adjusted global has moved by [2 * n],
    clamped once at its bound; fifteen presses reach the bound from anywhere
    in the range. *)
Theorem key_presses_accumulate (s : Sketch) (n : nat) :
  config_in_range s ->
  let k := inject_Z (Z.of_nat n) in
  (gridSize (keysPressed s (repeat upKey n)) == max 10 (gridSize s - 2 * k) /\
   gridSize (keysPressed s (repeat downKey n)) == min 40 (gridSize s + 2 * k) /\
   diskRadius (keysPressed s (repeat leftBracket n)) == max 5 (diskRadius s - 2 * k) /\
   diskRadius (keysPressed s (repeat rightBracket n)) == min 30 (diskRadius s + 2 * k))
  /\ ((15 <= n)%nat ->
      gridSize (keysPressed s (repeat upKey n)) == 10 /\
      gridSize (keysPressed s (repeat downKey n)) == 40 /\
      diskRadius (keysPressed s (repeat leftBracket n)) == 5 /\
      diskRadius (keysPressed s (repeat rightBracket n)) == 30).
Proof.
  intros [[Hg1 Hg2] [Hd1 Hd2]] k.
  pose proof (repeat_up upKey n s eq_refl Hg1) as Eu.
  pose proof (repeat_down downKey n s eq_refl Hg2) as Ed.
  pose proof (repeat_left leftBracket n s eq_refl Hd1) as El.
  pose proof (repeat_right rightBracket n s eq_refl Hd2) as Er.
  fold k in Eu, Ed, El, Er.
  split; [ repeat split; assumption | ].
  intros Hn.
  assert (Hk : 15 <= k).
  { unfold k. change 15 with (inject_Z 15). rewrite <- Zle_Qle. lia. }
  rewrite Eu, Ed, El, Er.
  repeat split.
  - apply max_eq_l. lra.
  - apply min_eq_l. lra.
  - apply max_eq_l. lra.
  - apply min_eq_l. lra.
Qed.

Lemma key_presses_accumulate_witness :
  gridSize (keysPressed setup (repeat upKey 3)) == 14 /\
  diskRadius (keysPressed setup (repeat rightBracket 8)) == 30.
Proof.
  assert (H : config_in_range setup).
  { unfold config_in_range. cbn. lra. }
  destruct (key_presses_accumulate setup 3 H) as [[Eu _] _].
  destruct (key_presses_accumulate setup 8 H) as [[_ [_ [_ Er]]] _].
  split.
  - rewrite Eu. reflexivity.
  - rewrite Er. reflexivity.
Defined.

(** X2: pressing an arrow key and then the opposite one restores [gridSize]
    unless the first press was clamped, in which case the result is one step
    inside the bound; likewise for the bracket keys and [diskRadius]. *)
Theorem opposite_keys_round_trip (s : Sketch) :
  config_in_range s ->
  let g := gridSize s in
  let d := diskRadius s in
  (12 <= g -> gridSize (keysPressed s [upKey; downKey]) == g) /\
  (g < 12 -> gridSize (keysPressed s [upKey; downKey]) == 12) /\
  (g <= 38 -> gridSize (keysPressed s [downKey; upKey]) == g) /\
  (38 < g -> gridSize (keysPressed s [downKey; upKey]) == 38) /\
  (7 <= d -> diskRadius (keysPressed s [leftBracket; rightBracket]) == d) /\
  (d < 7 -> diskRadius (keysPressed s [leftBracket; rightBracket]) == 7) /\
  (d <= 28 -> diskRadius (keysPressed s [rightBracket; leftBracket]) == d) /\
  (28 < d -> diskRadius (keysPressed s [rightBracket; leftBracket]) == 28).
Proof.
  intros [[Hg1 Hg2] [Hd1 Hd2]] g d.
  cbn [keysPressed fold_left keyPressed gridSize diskRadius keyCode key
       upKey downKey leftBracket rightBracket].
  change (UP_ARROW =? UP_ARROW)%Z with true.
  change (DOWN_ARROW =? UP_ARROW)%Z with false.
  change (DOWN_ARROW =? DOWN_ARROW)%Z with true.
  change ("[" =? "[")%string with true.
  change ("]" =? "[")%string with false.
  change ("]" =? "]")%string with true.
  cbv iota. subst g d. unfold max, min.
  set (g := gridSize s) in *. set (d := diskRadius s) in *.
  repeat split; intros H.
  - destruct (Q.max_spec 10 (g - 2)) as [[? E1] | [? E1]];
      destruct (Q.min_spec 40 (Qmax 10 (g - 2) + 2)) as [[? E2] | [? E2]]; lra.
  - destruct (Q.max_spec 10 (g - 2)) as [[? E1] | [? E1]];
      destruct (Q.min_spec 40 (Qmax 10 (g - 2) + 2)) as [[? E2] | [? E2]]; lra.
  - destruct (Q.min_spec 40 (g + 2)) as [[? E1] | [? E1]];
      destruct (Q.max_spec 10 (Qmin 40 (g + 2) - 2)) as [[? E2] | [? E2]]; lra.
  - destruct (Q.min_spec 40 (g + 2)) as [[? E1] | [? E1]];
      destruct (Q.max_spec 10 (Qmin 40 (g + 2) - 2)) as [[? E2] | [? E2]]; lra.
  - destruct (Q.max_spec 5 (d - 2)) as [[? E1] | [? E1]];
      destruct (Q.min_spec 30 (Qmax 5 (d - 2) + 2)) as [[? E2] | [? E2]]; lra.
  - destruct (Q.max_spec 5 (d - 2)) as [[? E1] | [? E1]];
      destruct (Q.min_spec 30 (Qmax 5 (d - 2) + 2)) as [[? E2] | [? E2]]; lra.
  - destruct (Q.min_spec 30 (d + 2)) as [[? E1] | [? E1]];
      destruct (Q.max_spec 5 (Qmin 30 (d + 2) - 2)) as [[? E2] | [? E2]]; lra.
  - destruct (Q.min_spec 30 (d + 2)) as [[? E1] | [? E1]];
      destruct (Q.max_spec 5 (Qmin 30 (d + 2) - 2)) as [[? E2] | [? E2]]; lra.
Qed.

Lemma opposite_keys_round_trip_witness :
  gridSize (keysPressed setup [upKey; downKey]) == 20 /\
  gridSize (keysPressed (keysPressed setup (repeat upKey 5)) [upKey; downKey]) == 12.
Proof.
  assert (H : config_in_range setup).
  { unfold config_in_range. cbn. lra. }
  split.
  - apply (proj1 (opposite_keys_round_trip setup H)). cbn. lra.
  - apply (proj1 (proj2 (opposite_keys_round_trip
                           (keysPressed setup (repeat upKey 5))
                           (keysPressed_preserves _ setup H)))).
    reflexivity.
Defined.

Lemma keyPressed_gridSize_other (s : Sketch) (e : KeyEvent) :
  keyCode e <> UP_ARROW -> keyCode e <> DOWN_ARROW ->
  gridSize (keyPressed s e) = gridSize s.
Proof.
  intros Hu Hd. unfold keyPressed. cbn [gridSize].
  apply Z.eqb_neq in Hu, Hd. rewrite Hu, Hd. reflexivity.
Qed.

Lemma keyPressed_diskRadius_other (s : Sketch) (e : KeyEvent) :
  key e <> "["%string -> key e <> "]"%string ->
  diskRadius (keyPressed s e) = diskRadius s.
Proof.
  intros Hl Hr. unfold keyPressed. cbn [diskRadius].
  apply String.eqb_neq in Hl, Hr. rewrite Hl, Hr. reflexivity.
Qed.

Lemma keysPressed_gridSize_other (es : list KeyEvent) (s : Sketch) :
  (forall e, In e es -> keyCode e <> UP_ARROW /\ keyCode e <> DOWN_ARROW) ->
  gridSize (keysPressed s es) = gridSize s.
Proof.
  revert s. induction es as [ | e es IH ]; intros s Hes; [ reflexivity | ].
  change (keysPressed s (e :: es)) with (keysPressed (keyPressed s e) es).
  rewrite IH by (intros e' He'; apply Hes; right; exact He').
  apply keyPressed_gridSize_other; apply Hes; left; reflexivity.
Qed.

Lemma keysPressed_diskRadius_other (es : list KeyEvent) (s : Sketch) :
  (forall e, In e es -> key e <> "["%string /\ key e <> "]"%string) ->
  diskRadius (keysPressed s es) = diskRadius s.
Proof.
  revert s. induction es as [ | e es IH ]; intros s Hes; [ reflexivity | ].
  change (keysPressed s (e :: es)) with (keysPressed (keyPressed s e) es).
  rewrite IH by (intros e' He'; apply Hes; right; exact He').
  apply keyPressed_diskRadius_other; apply Hes; left; reflexivity.
Qed.

(** X3: a key press never touches the capture or [scaleValue]; only an arrow key
    can change [gridSize] and only a bracket key [diskRadius], so that any
    other key, such as the space key, leaves the globals as they are. *)
Theorem keyPressed_frame (s : Sketch) (e : KeyEvent) :
  capture (keyPressed s e) = capture s /\
  scaleValue (keyPressed s e) = scaleValue s /\
  (keyCode e <> UP_ARROW -> keyCode e <> DOWN_ARROW ->
   gridSize (keyPressed s e) = gridSize s) /\
  (key e <> "["%string -> key e <> "]"%string ->
   diskRadius (keyPressed s e) = diskRadius s) /\
  (keyCode e <> UP_ARROW -> keyCode e <> DOWN_ARROW ->
   key e <> "["%string -> key e <> "]"%string -> keyPressed s e = s).
Proof.
  split; [ reflexivity | split; [ reflexivity | ] ].
  split; [ apply keyPressed_gridSize_other | ].
  split; [ apply keyPressed_diskRadius_other | ].
  intros Hu Hd Hl Hr.
  pose proof (keyPressed_gridSize_other s e Hu Hd) as Eg.
  pose proof (keyPressed_diskRadius_other s e Hl Hr) as Ed.
  destruct s as [c g d sc]. unfold keyPressed in *. cbn in *.
  rewrite Eg, Ed. reflexivity.
Qed.

Lemma keyPressed_frame_witness : keyPressed setup spaceKey = setup.
Proof.
  apply (proj2 (proj2 (proj2 (proj2 (keyPressed_frame setup spaceKey)))));
    discriminate.
Defined.

(** X4: a press of an arrow key and a press of a bracket key commute. *)
Theorem arrow_and_bracket_commute (s : Sketch) (a b : KeyEvent) :
  key a <> "["%string -> key a <> "]"%string ->
  keyCode b <> UP_ARROW -> keyCode b <> DOWN_ARROW ->
  keysPressed s [a; b] = keysPressed s [b; a].
Proof.
  intros Hl Hr Hu Hd.
  apply String.eqb_neq in Hl, Hr. apply Z.eqb_neq in Hu, Hd.
  cbn [keysPressed fold_left]. unfold keyPressed.
  cbn [gridSize diskRadius capture scaleValue].
  rewrite Hl, Hr, Hu, Hd. reflexivity.
Qed.

Lemma arrow_and_bracket_commute_witness :
  keysPressed setup [downKey; rightBracket] = keysPressed setup [rightBracket; downKey].
Proof. apply arrow_and_bracket_commute; discriminate. Defined.

(** ** Reachable configurations *)

Lemma inject_Z_le (a b : Z) : (a <= b)%Z -> inject_Z a <= inject_Z b.
Proof. intros H. rewrite <- Zle_Qle. exact H. Qed.

Lemma inject_Z_sub (a b : Z) : inject_Z (a - b) == inject_Z a - inject_Z b.
Proof. unfold Z.sub. rewrite inject_Z_plus, inject_Z_opp. reflexivity. Qed.

Lemma diskRadius_reachable (es : list KeyEvent) :
  exists d : Z, (5 <= d <= 30)%Z /\ diskRadius (keysPressed setup es) == inject_Z d.
Proof.
  assert (Hinit : exists d : Z, (5 <= d <= 30)%Z /\ diskRadius setup == inject_Z d).
  { exists 15%Z. split; [ lia | reflexivity ]. }
  unfold keysPressed. revert Hinit. generalize setup.
  induction es as [ | e es IH ]; intros s Hs; simpl; [ exact Hs | ].
  apply IH. destruct Hs as [d [Hd E]]. unfold keyPressed. cbn [diskRadius].
  assert (Hm : diskRadius s - 2 == inject_Z (d - 2)).
  { rewrite E, inject_Z_sub. reflexivity. }
  assert (Hp : diskRadius s + 2 == inject_Z (d + 2)).
  { rewrite E, inject_Z_plus. reflexivity. }
  destruct (String.eqb (key e) "[").
  - destruct (Z_le_gt_dec 7 d) as [Hge | Hlt].
    + exists (d - 2)%Z. split; [ lia | ].
      rewrite max_eq_r; [ exact Hm | ]. rewrite Hm.
      change 5 with (inject_Z 5). apply inject_Z_le. lia.
    + exists 5%Z. split; [ lia | ].
      rewrite max_eq_l; [ reflexivity | ]. rewrite Hm.
      change 5 with (inject_Z 5). apply inject_Z_le. lia.
  - destruct (String.eqb (key e) "]").
    + destruct (Z_le_gt_dec d 28) as [Hle | Hgt].
      * exists (d + 2)%Z. split; [ lia | ].
        rewrite min_eq_r; [ exact Hp | ]. rewrite Hp.
        change 30 with (inject_Z 30). apply inject_Z_le. lia.
      * exists 30%Z. split; [ lia | ].
        rewrite min_eq_l; [ reflexivity | ]. rewrite Hp.
        change 30 with (inject_Z 30). apply inject_Z_le. lia.
    + exists d. split; assumption.
Qed.

(** X5: whatever keys are pressed, [gridSize] is an even integer from 10 to 40
    and [diskRadius] an integer from 5 to 30. *)
Theorem reachable_config_integral (es : list KeyEvent) :
  let s := keysPressed setup es in
  (exists k : Z, (5 <= k <= 20)%Z /\ gridSize s == inject_Z (2 * k)) /\
  (exists d : Z, (5 <= d <= 30)%Z /\ diskRadius s == inject_Z d).
Proof.
  intros s. split; [ apply gridSize_reachable | apply diskRadius_reachable ].
Qed.

Lemma grid_reach (k : Z) :
  (5 <= k <= 20)%Z ->
  exists n : nat,
    gridSize (keysPressed setup (repeat (if (k <=? 10)%Z then upKey else downKey) n))
    == inject_Z (2 * k).
Proof.
  intros Hk.
  assert (Hlo : 10 <= gridSize setup) by (cbn; lra).
  assert (Hhi : gridSize setup <= 40) by (cbn; lra).
  destruct (Z.leb_spec k 10) as [Hle | Hgt].
  - exists (Z.to_nat (10 - k)).
    rewrite (repeat_up upKey _ setup eq_refl Hlo), Z2Nat.id by lia.
    assert (E : gridSize setup - 2 * inject_Z (10 - k) == inject_Z (2 * k)).
    { rewrite inject_Z_sub, inject_Z_mult. cbn. ring. }
    rewrite (max_comp _ _ _ E). apply max_eq_r.
    change 10 with (inject_Z 10). apply inject_Z_le. lia.
  - exists (Z.to_nat (k - 10)).
    rewrite (repeat_down downKey _ setup eq_refl Hhi), Z2Nat.id by lia.
    assert (E : gridSize setup + 2 * inject_Z (k - 10) == inject_Z (2 * k)).
    { rewrite inject_Z_sub, inject_Z_mult. cbn. ring. }
    rewrite (min_comp _ _ _ E). apply min_eq_r.
    change 40 with (inject_Z 40). apply inject_Z_le. lia.
Qed.

Lemma radius_reach (s : Sketch) (d : Z) :
  diskRadius s == 15 -> (5 <= d <= 30)%Z ->
  exists es : list KeyEvent,
    (forall e, In e es -> keyCode e <> UP_ARROW /\ keyCode e <> DOWN_ARROW) /\
    diskRadius (keysPressed s es) == inject_Z d.
Proof.
  intros Es Hd.
  assert (Hlo : 5 <= diskRadius s) by lra.
  assert (Hhi : diskRadius s <= 30) by lra.
  assert (Hkeys : forall e' n m, In e' (repeat rightBracket n ++ repeat leftBracket m) ->
                    keyCode e' <> UP_ARROW /\ keyCode e' <> DOWN_ARROW).
  { intros e' n m He'. apply in_app_or in He'.
    destruct He' as [He' | He']; apply repeat_spec in He'; subst e';
      split; discriminate. }
  destruct (Z.Even_or_Odd d) as [[m Hm] | [m Hm]].
  - (* even: up to the clamp at 30, then down *)
    exists (repeat rightBracket 8 ++ repeat leftBracket (Z.to_nat (15 - m))).
    split; [ intros e' He'; eapply Hkeys; exact He' | ].
    rewrite keysPressed_app.
    assert (E30 : diskRadius (keysPressed s (repeat rightBracket 8)) == 30).
    { rewrite (repeat_right rightBracket 8 s eq_refl Hhi).
      apply min_eq_l. rewrite Es.
      change (inject_Z (Z.of_nat 8)) with 8. lra. }
    rewrite (repeat_left leftBracket _ _ eq_refl) by lra.
    rewrite Z2Nat.id by lia.
    assert (E : diskRadius (keysPressed s (repeat rightBracket 8))
                - 2 * inject_Z (15 - m) == inject_Z d).
    { rewrite E30, inject_Z_sub. subst d. rewrite inject_Z_mult. cbn. ring. }
    rewrite (max_comp _ _ _ E). apply max_eq_r.
    change 5 with (inject_Z 5). apply inject_Z_le. lia.
  - destruct (Z_le_gt_dec d 15) as [Hle | Hgt].
    + exists (repeat rightBracket 0 ++ repeat leftBracket (Z.to_nat (7 - m))).
      split; [ intros e' He'; eapply Hkeys; exact He' | ].
      cbn [repeat app].
      rewrite (repeat_left leftBracket _ s eq_refl Hlo), Z2Nat.id by lia.
      assert (E : diskRadius s - 2 * inject_Z (7 - m) == inject_Z d).
      { rewrite Es, inject_Z_sub. subst d.
        rewrite inject_Z_plus, inject_Z_mult. cbn. ring. }
      rewrite (max_comp _ _ _ E). apply max_eq_r.
      change 5 with (inject_Z 5). apply inject_Z_le. lia.
    + exists (repeat rightBracket (Z.to_nat (m - 7)) ++ repeat leftBracket 0).
      split; [ intros e' He'; eapply Hkeys; exact He' | ].
      cbn [repeat]. rewrite app_nil_r.
      rewrite (repeat_right rightBracket _ s eq_refl Hhi), Z2Nat.id by lia.
      assert (E : diskRadius s + 2 * inject_Z (m - 7) == inject_Z d).
      { rewrite Es, inject_Z_sub. subst d.
        rewrite inject_Z_plus, inject_Z_mult. cbn. ring. }
      rewrite (min_comp _ _ _ E). apply min_eq_r.
      change 30 with (inject_Z 30). apply inject_Z_le. lia.
Qed.

(** X6: every even [gridSize] from 10 to 40 and every integral [diskRadius] from
    5 to 30, odd or even, is reached by some sequence of key presses: the
    clamp at 30 turns the odd radii, reached from 15, into even ones. *)
Theorem every_config_reachable (k d : Z) :
  (5 <= k <= 20)%Z -> (5 <= d <= 30)%Z ->
  exists es : list KeyEvent,
    gridSize (keysPressed setup es) == inject_Z (2 * k) /\
    diskRadius (keysPressed setup es) == inject_Z d.
Proof.
  intros Hk Hd.
  destruct (grid_reach k Hk) as [n Egrid].
  set (arrows := repeat (if (k <=? 10)%Z then upKey else downKey) n) in *.
  assert (Harrows : forall e, In e arrows ->
                      key e <> "["%string /\ key e <> "]"%string).
  { intros e He. apply repeat_spec in He. subst e.
    destruct (k <=? 10)%Z; split; discriminate. }
  assert (E15 : diskRadius (keysPressed setup arrows) == 15).
  { rewrite (keysPressed_diskRadius_other arrows setup Harrows). reflexivity. }
  destruct (radius_reach _ d E15 Hd) as [brackets [Hbrackets Eradius]].
  exists (arrows ++ brackets). rewrite keysPressed_app. split.
  - rewrite (keysPressed_gridSize_other brackets _ Hbrackets). exact Egrid.
  - exact Eradius.
Qed.

Lemma every_config_reachable_witness :
  exists es : list KeyEvent,
    gridSize (keysPressed setup es) == inject_Z (2 * 17) /\
    diskRadius (keysPressed setup es) == inject_Z 6.
Proof. apply every_config_reachable; lia. Defined.

(** ** Saved drawing states *)

Lemma stackDepth_app (limit : nat) (l1 l2 : list DrawCall) (d : nat) :
  stackDepth limit (l1 ++ l2) d
  = match stackDepth limit l1 d with
    | Some d' => stackDepth limit l2 d'
    | None => None
    end.
Proof.
  revert d. induction l1 as [ | c l1 IH ]; intros d; [ reflexivity | ].
  destruct c; cbn [app stackDepth]; try apply IH.
  - destruct (S d <=? limit)%nat; [ apply IH | reflexivity ].
  - destruct d; [ reflexivity | apply IH ].
Qed.

Lemma stackDepth_flat_map {A : Type} (limit : nat) (f : A -> list DrawCall)
      (l : list A) (d : nat) :
  (forall a, stackDepth limit (f a) d = Some d) ->
  stackDepth limit (flat_map f l) d = Some d.
Proof.
  intros Hf. induction l as [ | a l IH ]; [ reflexivity | ].
  cbn [flat_map]. rewrite stackDepth_app, Hf. exact IH.
Qed.

(** X7: in every frame each [push] is undone by a [pop]: no [pop] finds the
    stack of saved states empty, at most one state is saved at any time and
    none is left at the end of the frame. *)
Theorem frame_push_pop_balanced (s : Sketch) (h : Host) :
  stackDepth 1 (snd (draw s h)) 0 = Some 0%nat.
Proof.
  unfold draw. cbn [snd]. rewrite stackDepth_app.
  change (stackDepth 1 (prelude h) 0) with (Some 0%nat). cbv iota.
  unfold grid. apply stackDepth_flat_map. intros y.
  apply stackDepth_flat_map. intros x. reflexivity.
Qed.

(** ** Frames without disks *)

Lemma flat_map_nil_blocks {A B : Type} (f : A -> list B) (l : list A) :
  (forall a, f a = []) -> flat_map f l = [].
Proof.
  intros Hf. induction l as [ | a l IH ]; [ reflexivity | ].
  cbn [flat_map]. rewrite Hf, IH. reflexivity.
Qed.

Lemma gridDim_small (canvasDim : Z) (g : Q) :
  (0 <= canvasDim)%Z -> inject_Z canvasDim < g -> gridDim canvasDim g = 0%Z.
Proof.
  intros Hc Hlt.
  assert (Hc' : 0 <= inject_Z canvasDim).
  { change 0 with (inject_Z 0). rewrite <- Zle_Qle. exact Hc. }
  assert (Hg : 0 < g) by lra.
  unfold gridDim, floor.
  assert (Hlo : (0 <= Qfloor (inject_Z canvasDim / g))%Z).
  { change 0%Z with (Qfloor 0). apply Qfloor_resp_le.
    apply Qle_shift_div_l; [ exact Hg | lra ]. }
  assert (Hhi : (Qfloor (inject_Z canvasDim / g) < 1)%Z).
  { rewrite Zlt_Qlt.
    apply Qle_lt_trans with (inject_Z canvasDim / g); [ apply Qfloor_le | ].
    apply Qlt_shift_div_r; [ exact Hg | ]. change (inject_Z 1) with 1. lra. }
  lia.
Qed.

(** X9: when the canvas is narrower or lower than one cell the loops do not run:
    the frame sets up the lights and draws no disk. *)
Theorem no_disk_on_small_canvas (s : Sketch) (h : Host) :
  (0 <= width h)%Z -> (0 <= height h)%Z ->
  inject_Z (width h) < gridSize s \/ inject_Z (height h) < gridSize s ->
  snd (draw s h) = prelude h.
Proof.
  intros Hw Hh Hsmall. unfold draw. cbn [snd gridSize].
  rewrite <- (app_nil_r (prelude h)) at 2. f_equal. unfold grid.
  destruct Hsmall as [Hs | Hs].
  - rewrite (gridDim_small _ _ Hw Hs).
    apply flat_map_nil_blocks. intros y. reflexivity.
  - rewrite (gridDim_small _ _ Hh Hs). reflexivity.
Qed.

Lemma no_disk_on_small_canvas_witness :
  snd (draw setup {| width := 1280; height := 19; mouseX := 0; mouseY := 0;
                     video := [] |})
  = prelude {| width := 1280; height := 19; mouseX := 0; mouseY := 0;
               video := [] |}.
Proof.
  apply no_disk_on_small_canvas; [ discriminate | discriminate | ].
  right. reflexivity.
Defined.

(** ** Separation of the samples *)

Lemma captureCoord_strict (n d i j : Z) :
  (0 < n <= d)%Z -> (i < j)%Z ->
  (captureCoord i n d < captureCoord j n d)%Z.
Proof.
  intros Hn Hij. rewrite !captureCoord_div by lia.
  assert (H1 : ((i * d + 1 * n) / n <= j * d / n)%Z).
  { apply Z.div_le_mono; [ lia | nia ]. }
  rewrite Z.div_add in H1 by lia. lia.
Qed.

Lemma pixelOffset_injective (W H cols rows x1 y1 x2 y2 : Z) :
  (0 < cols <= W)%Z -> (0 < rows <= H)%Z ->
  (0 <= x1 < cols)%Z -> (0 <= x2 < cols)%Z ->
  (0 <= y1 < rows)%Z -> (0 <= y2 < rows)%Z ->
  pixelOffset W H cols rows x1 y1 = pixelOffset W H cols rows x2 y2 ->
  x1 = x2 /\ y1 = y2.
Proof.
  intros Hc Hr Hx1 Hx2 Hy1 Hy2 E. unfold pixelOffset in E.
  pose proof (captureCoord_bounds x1 cols W Hx1 ltac:(lia)) as B1.
  pose proof (captureCoord_bounds x2 cols W Hx2 ltac:(lia)) as B2.
  assert (Ey : captureCoord y1 rows H = captureCoord y2 rows H) by nia.
  assert (Ex : captureCoord x1 cols W = captureCoord x2 cols W) by nia.
  split.
  - destruct (Z.lt_trichotomy x1 x2) as [L | [E' | L]]; [ | exact E' | ];
      apply (captureCoord_strict cols W) in L; lia.
  - destruct (Z.lt_trichotomy y1 y2) as [L | [E' | L]]; [ | exact E' | ];
      apply (captureCoord_strict rows H) in L; lia.
Qed.

(** ** The sketch's session *)

Lemma session_grid (es : list KeyEvent) :
  let g := gridSize (keysPressed setup es) in
  (32 <= gridDim canvasWidth g <= 128)%Z /\ (18 <= gridDim canvasHeight g <= 72)%Z.
Proof.
  intros g. destruct (gridSize_reachable es) as [k [Hk E]]. fold g in E.
  rewrite !(gridDim_comp _ _ _ E). unfold gridDim. rewrite !floor_inject_div.
  unfold canvasWidth, canvasHeight.
  assert (Hcases : (k = 5 \/ k = 6 \/ k = 7 \/ k = 8 \/ k = 9 \/ k = 10 \/ k = 11 \/
                    k = 12 \/ k = 13 \/ k = 14 \/ k = 15 \/ k = 16 \/ k = 17 \/
                    k = 18 \/ k = 19 \/ k = 20)%Z) by lia.
  repeat (destruct Hcases as [-> | Hcases]; [ vm_compute; intuition discriminate | ]).
  subst k. vm_compute. intuition discriminate.
Qed.

Lemma keysPressed_capture (es : list KeyEvent) (s : Sketch) :
  capture (keysPressed s es) = capture s.
Proof.
  revert s. induction es as [ | e es IH ]; intros s; [ reflexivity | ].
  change (keysPressed s (e :: es)) with (keysPressed (keyPressed s e) es).
  rewrite IH. reflexivity.
Qed.

(** X11: on the canvas made by [setup], whatever keys have been pressed, a frame
    draws between 576 and 9216 disks (a grid of 32 x 18 to 128 x 72 cells),
    and two different cells never sample the same pixel of the capture. *)
Theorem session_grid_and_samples (es : list KeyEvent) (h : Host) :
  width h = canvasWidth -> height h = canvasHeight ->
  let s := keysPressed setup es in
  let cols := gridDim canvasWidth (gridSize s) in
  let rows := gridDim canvasHeight (gridSize s) in
  let W := Capture.width (capture s) in
  let H := Capture.height (capture s) in
  (W = 192 /\ H = 108)%Z /\
  (32 <= cols <= 128 /\ 18 <= rows <= 72)%Z /\
  (576 <= Z.of_nat (countDisks (snd (draw s h))) <= 9216)%Z /\
  (forall x1 y1 x2 y2,
     (0 <= x1 < cols)%Z -> (0 <= x2 < cols)%Z ->
     (0 <= y1 < rows)%Z -> (0 <= y2 < rows)%Z ->
     pixelOffset W H cols rows x1 y1 = pixelOffset W H cols rows x2 y2 ->
     x1 = x2 /\ y1 = y2).
Proof.
  intros Hw Hh s cols rows W H.
  assert (HWH : (W = 192 /\ H = 108)%Z).
  { unfold W, H, s. rewrite keysPressed_capture. split; reflexivity. }
  pose proof (session_grid es) as [Hc Hr]. fold s cols rows in Hc, Hr.
  split; [ exact HWH | split; [ split; assumption | split ] ].
  - unfold draw, countDisks. cbn [snd]. rewrite filter_app, length_app.
    cbn [prelude filter isCylinder length].
    change (length (filter isCylinder (grid ?a ?c ?r))) with (countDisks (grid a c r)).
    rewrite grid_disks. cbn [gridSize]. rewrite Hw, Hh. fold s cols rows.
    rewrite Nat2Z.inj_add, Nat2Z.inj_mul, !Z2Nat.id by lia.
    change (Z.of_nat 0) with 0%Z. nia.
  - intros x1 y1 x2 y2 Hx1 Hx2 Hy1 Hy2.
    destruct HWH as [-> ->]. apply pixelOffset_injective; lia.
Qed.

Lemma session_grid_and_samples_witness :
  (576 <= Z.of_nat (countDisks (snd (draw (keysPressed setup [upKey; rightBracket])
                                           firstHost)))
   <= 9216)%Z.
Proof.
  apply (session_grid_and_samples [upKey; rightBracket] firstHost eq_refl eq_refl).
Defined.

(** ** Frames over well-formed images *)

Lemma map_rotation_range (v : Q) : 0 <= v <= 255 -> 0 <= map v 0 255 0 PI <= PI.
Proof.
  intros [H0 H1]. rewrite map_rotation.
  assert (Hp : 0 <= PI / 255) by discriminate.
  split.
  - apply Qmult_le_0_compat; assumption.
  - assert (E : PI == 255 * (PI / 255)) by reflexivity.
    rewrite E at 2. apply Qmult_le_compat_r; assumption.
Qed.

Lemma map_depth_range (v : Q) :
  0 <= v <= 255 -> -100 <= map v 0 255 (-100) 100 <= 100.
Proof. intros [H0 H1]. rewrite map_depth. lra. Qed.





(** ** The pointer *)

(** X14: the pointer position reaches a frame only through the point light, which
    is placed at the pointer, measured from the centre of the canvas, 200
    units in front of it: every other call of the frame is the same wherever
    the pointer is. *)
Theorem pointer_moves_only_the_light (s : Sketch) (h : Host) (x y : Q) :
  nth_error (snd (draw s (withMouse h x y))) 3
  = Some (pointLight 200 200 255
            (x - inject_Z (width h) / 2) (y - inject_Z (height h) / 2) 200) /\
  (forall i : nat, i <> 3%nat ->
     nth_error (snd (draw s (withMouse h x y))) i = nth_error (snd (draw s h)) i).
Proof.
  split; [ reflexivity | ].
  intros i Hi.
  destruct i as [ | [ | [ | [ | [ | i ] ] ] ] ]; try reflexivity.
  contradiction Hi. reflexivity.
Qed.

Lemma pointer_moves_only_the_light_witness :
  nth_error (snd (draw setup (withMouse firstHost 0 0))) 5
  = nth_error (snd (draw setup firstHost)) 5.
Proof.
  apply (proj2 (pointer_moves_only_the_light setup firstHost 0 0)). discriminate.
Defined.

(** ** Addressing of the pixel array *)

(** X15: the address formula of the sampler is a bijection between the bytes of a
    pixel array [W] pixels wide and the triples (column, row, channel): two
    different triples never share a byte, every index is the byte of a
    triple, and the bytes of the pixels of the first [H] rows are those of
    index below [W * H * 4].  The offset computed for a cell is the address
    of the red byte of the pixel it samples. *)
Theorem byteIndex_bijective (W : Z) :
  (0 < W)%Z ->
  (forall x y c x' y' c',
     (0 <= x < W)%Z -> (0 <= x' < W)%Z -> (0 <= c < 4)%Z -> (0 <= c' < 4)%Z ->
     byteIndex W x y c = byteIndex W x' y' c' -> x = x' /\ y = y' /\ c = c') /\
  (forall i,
     byteIndex W ((i / 4) mod W) (i / 4 / W) (i mod 4) = i /\
     (0 <= (i / 4) mod W < W)%Z /\ (0 <= i mod 4 < 4)%Z) /\
  (forall H x y c,
     (0 <= x < W)%Z -> (0 <= y < H)%Z -> (0 <= c < 4)%Z ->
     (0 <= byteIndex W x y c < W * H * 4)%Z) /\
  (forall H cols rows x y,
     pixelOffset W H cols rows x y
     = byteIndex W (captureCoord x cols W) (captureCoord y rows H) 0).
Proof.
  intros HW. split; [ | split; [ | split ] ].
  - intros x y c x' y' c' Hx Hx' Hc Hc' E. unfold byteIndex in E.
    assert (Ec : c = c') by lia.
    assert (Ep : (y * W + x = y' * W + x')%Z) by lia.
    assert (Ey : y = y') by nia.
    subst. repeat split; lia.
  - intros i. unfold byteIndex.
    pose proof (Z.div_mod i 4 ltac:(lia)) as E4.
    pose proof (Z.div_mod (i / 4) W ltac:(lia)) as EW.
    pose proof (Z.mod_pos_bound i 4 ltac:(lia)) as B4.
    pose proof (Z.mod_pos_bound (i / 4) W HW) as BW.
    repeat split; lia.
  - intros H x y c Hx Hy Hc. unfold byteIndex. nia.
  - intros H cols rows x y. unfold pixelOffset, byteIndex. lia.
Qed.

Lemma byteIndex_bijective_witness :
  byteIndex 10 ((95 / 4) mod 10) (95 / 4 / 10) (95 mod 4) = 95%Z /\
  pixelOffset 10 10 10 10 3 2 = byteIndex 10 3 2 0.
Proof.
  assert (HW : (0 < 10)%Z) by reflexivity.
  split.
  - apply (proj1 (proj2 (byteIndex_bijective 10 HW))).
  - apply (proj2 (proj2 (proj2 (byteIndex_bijective 10 HW))) 10%Z 10%Z 10%Z 3%Z 2%Z).
Defined.

Lemma binary64_sampler_on_session_witness :
  exists g : Z,
    gridSize (keysPressed setup [upKey]) == inject_Z g /\
    Binary64.gridDim canvasWidth g
    = Some (gridDim canvasWidth (gridSize (keysPressed setup [upKey]))).
Proof.
  destruct (binary64_sampler_on_session [upKey]) as [g [E [Hcols _]]].
  exists g. split; assumption.
Defined.

(** ** Coverage of the canvas by the cells *)




(** * The frame routine on binary64 numbers *)

(** ** Shape of a frame *)

Lemma cell64_length s cols rows x y :
  length (Sketch64.cell s cols rows x y) = callsPerCell.
Proof. reflexivity. Qed.

Lemma nth_error_grid64 s cols rows ncols nrows x y j :
  (0 <= x < ncols)%Z -> (0 <= y < nrows)%Z -> (j < callsPerCell)%nat ->
  nth_error (Sketch64.grid s cols rows ncols nrows) (cellIndex ncols x y j)
  = nth_error (Sketch64.cell s cols rows x y) j.
Proof.
  intros Hx Hy Hj. unfold Sketch64.grid, cellIndex.
  assert (Hrow : forall y', length (flat_map (fun x' => Sketch64.cell s cols rows x' y')
                                             (range ncols))
                            = (Z.to_nat ncols * callsPerCell)%nat).
  { intros y'.
    rewrite (flat_map_block_length _ callsPerCell)
      by (intros; apply cell64_length).
    rewrite range_length. reflexivity. }
  rewrite (nth_error_flat_map_block _ (Z.to_nat ncols * callsPerCell) Hrow
             (range nrows) (Z.to_nat y) _ y (nth_error_range nrows y Hy)).
  - apply (nth_error_flat_map_block
             (fun x' => Sketch64.cell s cols rows x' y) callsPerCell
             (fun x' => cell64_length s cols rows x' y)
             (range ncols) (Z.to_nat x) j x (nth_error_range ncols x Hx) Hj).
  - unfold callsPerCell in *. nia.
Qed.

Lemma loopCount_nonneg (n : spec_float) (k : Z) :
  Sketch64.loopCount n = Some k -> (0 <= k)%Z.
Proof.
  unfold Sketch64.loopCount. intros H.
  destruct n as [sg | [ | ] | | sg m e];
    try (injection H as <-; lia); try discriminate;
    (destruct (Binary64.floor _) as [j | ]; [ | injection H as <-; lia ];
     destruct (2 ^ 53 <? - j)%Z; [ discriminate | injection H as <-; lia ]).
Qed.

Lemma range_nonpos (n : Z) : (n <= 0)%Z -> range n = [].
Proof.
  intros Hn. unfold range. replace (Z.to_nat n) with 0%nat by lia. reflexivity.
Qed.

(** A frame whose loops end issues the calls that precede the loops and then
    those of the cells, row by row. *)
Lemma draw64_calls (s : Sketch64.Sketch) (h : Sketch64.Host) (ncols nrows : Z) :
  let cols := Sketch64.gridDim (Sketch64.width h) (Sketch64.gridSize s) in
  let rows := Sketch64.gridDim (Sketch64.height h) (Sketch64.gridSize s) in
  Sketch64.loopCount cols = Some ncols -> Sketch64.loopCount rows = Some nrows ->
  exists s',
    Sketch64.capture s' = loadPixels (Sketch64.capture s) (Sketch64.video h) /\
    Sketch64.gridSize s' = Sketch64.gridSize s /\
    Sketch64.diskRadius s' = Sketch64.diskRadius s /\
    Sketch64.draw s h
    = Some (s', Sketch64.prelude h ++ Sketch64.grid s' cols rows ncols nrows).
Proof.
  intros cols rows Hc Hr. eexists. split; [ | split; [ | split ] ].
  4: { unfold Sketch64.draw. cbn [Sketch64.gridSize].
       fold cols rows. rewrite Hr, Hc.
       destruct (Z.leb_spec nrows 0) as [Hle | Hgt]; [ | reflexivity ].
       unfold Sketch64.grid. rewrite (range_nonpos nrows Hle).
       cbn [flat_map]. rewrite app_nil_r. reflexivity. }
  all: reflexivity.
Qed.

Lemma nth_error_draw64 (s : Sketch64.Sketch) (h : Sketch64.Host)
      (ncols nrows x y : Z) (j : nat) :
  let cols := Sketch64.gridDim (Sketch64.width h) (Sketch64.gridSize s) in
  let rows := Sketch64.gridDim (Sketch64.height h) (Sketch64.gridSize s) in
  Sketch64.loopCount cols = Some ncols -> Sketch64.loopCount rows = Some nrows ->
  (0 <= x < ncols)%Z -> (0 <= y < nrows)%Z -> (j < callsPerCell)%nat ->
  exists s' calls,
    Sketch64.draw s h = Some (s', calls) /\
    Sketch64.capture s' = loadPixels (Sketch64.capture s) (Sketch64.video h) /\
    Sketch64.gridSize s' = Sketch64.gridSize s /\
    Sketch64.diskRadius s' = Sketch64.diskRadius s /\
    nth_error calls (callsBeforeGrid + cellIndex ncols x y j)
    = nth_error (Sketch64.cell s' cols rows x y) j.
Proof.
  intros cols rows Hc Hr Hx Hy Hj.
  destruct (draw64_calls s h ncols nrows Hc Hr) as [s' [E1 [E2 [E3 E]]]].
  exists s'. eexists. split; [ exact E | ].
  split; [ exact E1 | split; [ exact E2 | split; [ exact E3 | ] ] ].
  rewrite nth_error_app2 by (cbn [Sketch64.prelude length]; unfold callsBeforeGrid; lia).
  change (length (Sketch64.prelude h)) with callsBeforeGrid.
  rewrite Nat.add_comm, Nat.add_sub.
  apply nth_error_grid64; assumption.
Qed.

(** ** Frame sampler *)



(** ** Depth and rotation of a disk *)

(** C4: in a frame whose loops end, the disk of every cell is translated to
    the depth [map(brightness, 0, 255, -100, 100)] and rotated about the X
    axis by [map(brightness, 0, 255, 0, PI)], where [brightness] is that of
    the three bytes the cell reads; brightness 0 (a black pixel) gives depth
    -100 and rotation 0, brightness 255 (a white pixel) gives depth 100 and
    rotation [PI], and brightness 127.5 gives depth 0 and rotation [PI / 2],
    all exactly. *)
Theorem disk_depth_and_rotation :
  (forall (s : Sketch64.Sketch) (h : Sketch64.Host) (ncols nrows x y : Z),
     let cols := Sketch64.gridDim (Sketch64.width h) (Sketch64.gridSize s) in
     let rows := Sketch64.gridDim (Sketch64.height h) (Sketch64.gridSize s) in
     let buffer := Sketch64.video h in
     let offset :=
       Sketch64.pixelOffset (Capture.width (Sketch64.capture s))
                            (Capture.height (Sketch64.capture s)) cols rows x y in
     let b :=
       Sketch64.brightness
         (Sketch64.read buffer offset)
         (Sketch64.read buffer (Binary64.add offset (Sketch64.lit 1)))
         (Sketch64.read buffer (Binary64.add offset (Sketch64.lit 2))) in
     let zDepth :=
       Binary64.map b (Sketch64.lit 0) (Sketch64.lit 255)
                    (Sketch64.lit (-100)) (Sketch64.lit 100) in
     let rotationX :=
       Binary64.map b (Sketch64.lit 0) (Sketch64.lit 255)
                    (Sketch64.lit 0) Binary64.PI in
     Sketch64.loopCount cols = Some ncols -> Sketch64.loopCount rows = Some nrows ->
     (0 <= x < ncols)%Z -> (0 <= y < nrows)%Z ->
     exists s' calls,
       Sketch64.draw s h = Some (s', calls) /\
       nth_error calls (callsBeforeGrid + cellIndex ncols x y 1)
       = Some (Sketch64.translate (Sketch64.position x (Sketch64.gridSize s))
                                  (Sketch64.position y (Sketch64.gridSize s))
                                  zDepth) /\
       nth_error calls (callsBeforeGrid + cellIndex ncols x y 2)
       = Some (Sketch64.rotateX rotationX))
  /\ (Binary64.denotes (Sketch64.zDepthOf (Sketch64.lit 0)) (-100) /\
      Binary64.denotes (Sketch64.rotationOf (Sketch64.lit 0)) 0 /\
      Sketch64.brightness (Some 0%Z) (Some 0%Z) (Some 0%Z) = Sketch64.lit 0)
  /\ (Binary64.denotes (Sketch64.zDepthOf (Sketch64.lit 255)) 100 /\
      Sketch64.rotationOf (Sketch64.lit 255) = Binary64.PI /\
      Binary64.denotes Binary64.PI PI /\
      Sketch64.brightness (Some 255%Z) (Some 255%Z) (Some 255%Z) = Sketch64.lit 255)
  /\ (let half := Binary64.div (Sketch64.lit 255) (Sketch64.lit 2) in
      Binary64.denotes half (255 / 2) /\
      Binary64.denotes (Sketch64.zDepthOf half) 0 /\
      Binary64.denotes (Sketch64.rotationOf half) (PI / 2)).
Proof.
  split; [ | vm_compute; repeat split ].
  intros s h ncols nrows x y cols rows buffer offset b zDepth rotationX Hc Hr Hx Hy.
  assert (H1 : (1 < callsPerCell)%nat) by (unfold callsPerCell; lia).
  assert (H2 : (2 < callsPerCell)%nat) by (unfold callsPerCell; lia).
  destruct (draw64_calls s h ncols nrows Hc Hr) as [s' [Ecap [Eg [_ E]]]].
  exists s'. eexists. split; [ exact E | ].
  assert (Hnth : forall j, (j < callsPerCell)%nat ->
            nth_error (Sketch64.prelude h ++ Sketch64.grid s' cols rows ncols nrows)
                      (callsBeforeGrid + cellIndex ncols x y j)
            = nth_error (Sketch64.cell s' cols rows x y) j).
  { intros j Hj.
    rewrite nth_error_app2
      by (cbn [Sketch64.prelude length]; unfold callsBeforeGrid; lia).
    change (length (Sketch64.prelude h)) with callsBeforeGrid.
    rewrite Nat.add_comm, Nat.add_sub. apply nth_error_grid64; assumption. }
  rewrite !Hnth by assumption.
  unfold Sketch64.cell. cbn [nth_error]. rewrite Ecap, Eg. split; reflexivity.
Qed.

Lemma disk_depth_and_rotation_witness :
  exists s' calls,
    Sketch64.draw Sketch64.setup firstHost64 = Some (s', calls) /\
    exists zDepth rotationX,
      nth_error calls (callsBeforeGrid + cellIndex 64 63 35 1)
      = Some (Sketch64.translate (Sketch64.lit 1270) (Sketch64.lit 710) zDepth) /\
      nth_error calls (callsBeforeGrid + cellIndex 64 63 35 2)
      = Some (Sketch64.rotateX rotationX).
Proof.
  assert (Hx : (0 <= 63 < 64)%Z) by lia.
  assert (Hy : (0 <= 35 < 36)%Z) by lia.
  destruct (proj1 disk_depth_and_rotation Sketch64.setup firstHost64 64%Z 36%Z
              63%Z 35%Z eq_refl eq_refl Hx Hy) as [s' [calls [E [H1 H2]]]].
  exists s', calls. split; [ exact E | ]. do 2 eexists. split.
  - rewrite H1. reflexivity.
  - exact H2.
Defined.

(** ** Disks drawn by a frame *)

Lemma grid64_disks s cols rows ncols nrows :
  Sketch64.countDisks (Sketch64.grid s cols rows ncols nrows)
  = (Z.to_nat nrows * Z.to_nat ncols)%nat.
Proof.
  unfold Sketch64.countDisks, Sketch64.grid.
  rewrite (flat_map_block_count Sketch64.isCylinder _ (Z.to_nat ncols * 1)).
  - rewrite range_length. lia.
  - intros y.
    rewrite (flat_map_block_count Sketch64.isCylinder _ 1) by reflexivity.
    rewrite range_length. reflexivity.
Qed.

(** C7: a frame whose loops end, over [cols] columns and [rows] rows, issues
    exactly one disk per cell, with the current [diskRadius], whatever the
    buffer holds: [cols * rows] disks in all. *)
Theorem one_disk_per_cell (s : Sketch64.Sketch) (h : Sketch64.Host)
        (ncols nrows : Z) :
  let cols := Sketch64.floor (Binary64.div (Sketch64.lit (Sketch64.width h))
                                           (Sketch64.gridSize s)) in
  let rows := Sketch64.floor (Binary64.div (Sketch64.lit (Sketch64.height h))
                                           (Sketch64.gridSize s)) in
  Sketch64.loopCount cols = Some ncols -> Sketch64.loopCount rows = Some nrows ->
  exists s' calls,
    Sketch64.draw s h = Some (s', calls) /\
    Z.of_nat (Sketch64.countDisks calls) = (ncols * nrows)%Z /\
    (forall x y, Sketch64.countDisks (Sketch64.cell s' cols rows x y) = 1%nat) /\
    (forall x y, (0 <= x < ncols)%Z -> (0 <= y < nrows)%Z ->
       nth_error calls (callsBeforeGrid + cellIndex ncols x y 5)
       = Some (Sketch64.cylinder (Sketch64.diskRadius s) (Sketch64.lit 2))).
Proof.
  intros cols rows Hc Hr.
  pose proof (loopCount_nonneg _ _ Hc) as Hnc.
  pose proof (loopCount_nonneg _ _ Hr) as Hnr.
  destruct (draw64_calls s h ncols nrows Hc Hr) as [s' [_ [_ [Ed E]]]].
  exists s'. eexists. split; [ exact E | ]. split; [ | split ].
  - unfold Sketch64.countDisks. rewrite filter_app, length_app.
    cbn [Sketch64.prelude filter Sketch64.isCylinder length].
    change (length (filter Sketch64.isCylinder (Sketch64.grid ?a ?c ?r ?n ?m)))
      with (Sketch64.countDisks (Sketch64.grid a c r n m)).
    rewrite grid64_disks. lia.
  - reflexivity.
  - intros x y Hx Hy.
    rewrite nth_error_app2
      by (cbn [Sketch64.prelude length]; unfold callsBeforeGrid; lia).
    change (length (Sketch64.prelude h)) with callsBeforeGrid.
    rewrite Nat.add_comm, Nat.add_sub.
    rewrite nth_error_grid64 by (try assumption; unfold callsPerCell; lia).
    unfold Sketch64.cell. cbn [nth_error]. rewrite Ed. reflexivity.
Qed.

Lemma one_disk_per_cell_witness :
  exists s' calls,
    Sketch64.draw sketch64_10 host64_10 = Some (s', calls) /\
    Z.of_nat (Sketch64.countDisks calls) = 100%Z.
Proof.
  destruct (one_disk_per_cell sketch64_10 host64_10 10%Z 10%Z eq_refl eq_refl)
    as [s' [calls [E [Hn _]]]].
  exists s', calls. split; assumption.
Defined.

(** ** Binary64 arithmetic on the values of the sketch *)

Lemma sf_eqb_eq (a b : spec_float) : sf_eqb a b = true -> a = b.
Proof.
  destruct a as [s | s | | s m e], b as [s' | s' | | s' m' e']; cbn;
    try discriminate; intros H.
  - apply Bool.eqb_prop in H. congruence.
  - apply Bool.eqb_prop in H. congruence.
  - reflexivity.
  - apply andb_prop in H. destruct H as [H He].
    apply andb_prop in H. destruct H as [Hs Hm].
    apply Bool.eqb_prop in Hs. apply Pos.eqb_eq in Hm. apply Z.eqb_eq in He.
    congruence.
Qed.

Lemma forallb_range (f : Z -> bool) (n a : Z) :
  forallb f (range n) = true -> (0 <= a < n)%Z -> f a = true.
Proof.
  intros H Ha. rewrite forallb_forall in H. apply H, In_range, Ha.
Qed.

Lemma nth_error_byteLits (i : Z) :
  (0 <= i < 766)%Z -> nth_error byteLits (Z.to_nat i) = Some (Sketch64.lit i).
Proof.
  intros Hi. unfold byteLits.
  rewrite nth_error_map, (nth_error_range 766 i Hi). reflexivity.
Qed.

Lemma sumRow_nth (fa : spec_float) (xs ys : list spec_float) (n : nat)
      (x y : spec_float) :
  sumRow fa xs ys = true -> nth_error xs n = Some x -> nth_error ys n = Some y ->
  Binary64.add fa x = y.
Proof.
  unfold sumRow. revert ys n. induction xs as [ | x' xs IH ]; intros ys n H Hx Hy.
  - destruct n; discriminate.
  - destruct ys as [ | y' ys ]; [ destruct n; discriminate | ].
    cbn [combine forallb fst snd] in H. apply andb_prop in H. destruct H as [H0 H].
    destruct n as [ | n ]; cbn [nth_error] in Hx, Hy.
    + injection Hx as ->. injection Hy as ->. apply sf_eqb_eq, H0.
    + apply (IH ys n H Hx Hy).
Qed.

Lemma byteSums_hold : forallb byteSumsChecked (range 511) = true.
Proof. vm_compute. reflexivity. Qed.

(** Binary64 addition is exact on an integer from 0 to 510 and a byte. *)
Lemma add_small (a b : Z) :
  (0 <= a <= 510)%Z -> (0 <= b <= 255)%Z ->
  Binary64.add (Sketch64.lit a) (Sketch64.lit b) = Sketch64.lit (a + b).
Proof.
  intros Ha Hb.
  pose proof (forallb_range _ _ a byteSums_hold ltac:(lia)) as H.
  unfold byteSumsChecked in H.
  apply (sumRow_nth _ _ _ (Z.to_nat b) _ _ H).
  - rewrite nth_error_firstn.
    destruct (Nat.ltb_spec (Z.to_nat b) 256) as [_ | Hge]; [ | lia ].
    apply nth_error_byteLits. lia.
  - rewrite nth_error_skipn, <- Z2Nat.inj_add by lia.
    apply nth_error_byteLits. lia.
Qed.

Lemma brightness_of_bytes (r g b : Z) :
  (0 <= r <= 255)%Z -> (0 <= g <= 255)%Z -> (0 <= b <= 255)%Z ->
  Sketch64.brightness (Some r) (Some g) (Some b) = brightnessOfSum (r + g + b).
Proof.
  intros Hr Hg Hb. unfold Sketch64.brightness, brightnessOfSum.
  cbn [Sketch64.of_value].
  change (Binary64.of_Z r) with (Sketch64.lit r).
  change (Binary64.of_Z g) with (Sketch64.lit g).
  change (Binary64.of_Z b) with (Sketch64.lit b).
  rewrite (add_small r g) by lia. rewrite (add_small (r + g) b) by lia.
  reflexivity.
Qed.

Lemma brightnesses_hold : forallb brightnessChecked (range 766) = true.
Proof. vm_compute. reflexivity. Qed.

Lemma Qle_bool_le (x y : Q) : Qle_bool x y = true -> x <= y.
Proof. apply Qle_bool_imp_le. Qed.

Lemma brightness_of_sum (s : Z) :
  (0 <= s <= 765)%Z ->
  exists q : Q,
    Binary64.to_Q (brightnessOfSum s) = Some q /\
    0 <= q <= 255 /\
    inject_Z s - inject_Z s * roundingUnit <= 3 * q
      <= inject_Z s + inject_Z s * roundingUnit /\
    ((s mod 3 = 0)%Z -> 3 * q == inject_Z s).
Proof.
  intros Hs.
  pose proof (forallb_range _ _ s brightnesses_hold ltac:(lia)) as H.
  unfold brightnessChecked in H.
  destruct (Binary64.to_Q (brightnessOfSum s)) as [q | ]; [ | discriminate ].
  exists q. split; [ reflexivity | ].
  repeat (apply andb_prop in H; destruct H as [H ?]).
  repeat match goal with
         | Hb : Qle_bool _ _ = true |- _ => apply Qle_bool_le in Hb
         end.
  split; [ split; assumption | split; [ split; assumption | ] ].
  intros Hmod.
  match goal with
  | Hb : (negb _ || _)%bool = true |- _ =>
      rewrite (proj2 (Z.eqb_eq _ _) Hmod) in Hb; cbn in Hb;
      apply Qeq_bool_eq in Hb; exact Hb
  end.
Qed.

(** ** Brightness *)

(** C3, as stated, fails: the brightness of the bytes (0, 0, 1) is a binary64
    number, which is not 1/3. *)
Lemma brightness_exact_average_counterexample :
  ~ Binary64.denotes (Sketch64.brightness (Some 0%Z) (Some 0%Z) (Some 1%Z)) (1 # 3).
Proof. vm_compute. discriminate. Qed.

(** C3, amended: for channel bytes [r], [g], [b] in [0, 255] the brightness
    is the binary64 quotient of [r + g + b] by 3: it is not truncated, lies
    in [0, 255], differs from the exact average by at most the relative
    rounding error 2^-53 and equals it when 3 divides the sum;
    (10, 20, 30) gives 20 and (0, 0, 1) gives 6004799503160661 / 2^54, which
    is not 0. *)
Theorem brightness_rounded_average :
  (forall r g b : Z,
     (0 <= r <= 255)%Z -> (0 <= g <= 255)%Z -> (0 <= b <= 255)%Z ->
     let average := (inject_Z r + inject_Z g + inject_Z b) / 3 in
     exists q : Q,
       Binary64.to_Q (Sketch64.brightness (Some r) (Some g) (Some b)) = Some q /\
       0 <= q <= 255 /\
       average - average * roundingUnit <= q <= average + average * roundingUnit /\
       (((r + g + b) mod 3 = 0)%Z -> q == average))
  /\ Binary64.denotes (Sketch64.brightness (Some 10%Z) (Some 20%Z) (Some 30%Z)) 20
  /\ Binary64.denotes (Sketch64.brightness (Some 0%Z) (Some 0%Z) (Some 1%Z))
                      (6004799503160661 # 18014398509481984)
  /\ ~ Binary64.denotes (Sketch64.brightness (Some 0%Z) (Some 0%Z) (Some 1%Z)) 0.
Proof.
  split; [ | split; [ | split ] ].
  - intros r g b Hr Hg Hb average.
    rewrite (brightness_of_bytes r g b Hr Hg Hb).
    destruct (brightness_of_sum (r + g + b)) as [q [E [Hrange [Herr Hdiv]]]];
      [ lia | ].
    exists q. split; [ exact E | split; [ exact Hrange | ] ].
    assert (Eavg : 3 * average == inject_Z (r + g + b)).
    { unfold average. rewrite !inject_Z_plus. field. }
    rewrite <- Eavg in Herr, Hdiv.
    split; [ | intros Hmod; specialize (Hdiv Hmod) ].
    + unfold roundingUnit in *. split; lra.
    + lra.
  - vm_compute. reflexivity.
  - vm_compute. reflexivity.
  - vm_compute. discriminate.
Qed.

Lemma brightness_rounded_average_witness :
  exists q : Q,
    Binary64.to_Q (Sketch64.brightness (Some 255%Z) (Some 255%Z) (Some 254%Z))
    = Some q /\ 0 <= q <= 255.
Proof.
  destruct (proj1 brightness_rounded_average 255%Z 255%Z 254%Z)
    as [q [E [Hrange _]]]; try lia.
  exists q. split; assumption.
Defined.

(** ** Grid dimensions *)

Lemma gridDims_hold : forallb gridDimsChecked (range 1280) = true.
Proof. vm_compute. reflexivity. Qed.

Lemma gridDim_integral (g : Z) :
  (1 <= g <= 1280)%Z ->
  Sketch64.loopCount (Sketch64.gridDim canvasWidth (Sketch64.lit g))
  = Some (canvasWidth / g)%Z /\
  Sketch64.loopCount (Sketch64.gridDim canvasHeight (Sketch64.lit g))
  = Some (canvasHeight / g)%Z.
Proof.
  intros Hg.
  pose proof (forallb_range _ _ (g - 1) gridDims_hold ltac:(lia)) as H.
  unfold gridDimsChecked, gridDimChecked in H.
  replace (g - 1 + 1)%Z with g in H by lia.
  apply andb_prop in H. destruct H as [Hw Hh].
  destruct (Sketch64.loopCount (Sketch64.gridDim canvasWidth (Sketch64.lit g)))
    as [n | ]; [ | discriminate ].
  destruct (Sketch64.loopCount (Sketch64.gridDim canvasHeight (Sketch64.lit g)))
    as [m | ]; [ | discriminate ].
  apply Z.eqb_eq in Hw, Hh. subst. split; reflexivity.
Qed.

(** C5, as stated, fails for a cell size that is not integral: with
    [gridSize = 12.8] the frame runs 100 columns on the 1280 pixels of the
    canvas, which is not the floor of the exact quotient (99), and 100
    columns of that size are wider than the canvas. *)
Lemma grid_dimensions_counterexample :
  let cellSize := Binary64.div (Sketch64.lit 128) (Sketch64.lit 10) in
  exists q : Q,
    Binary64.to_Q cellSize = Some q /\ 0 < q /\
    Sketch64.loopCount (Sketch64.gridDim canvasWidth cellSize) = Some 100%Z /\
    Qfloor (inject_Z canvasWidth / q) = 99%Z /\
    ~ inject_Z 100 * q <= inject_Z canvasWidth.
Proof.
  eexists. split; [ vm_compute; reflexivity | ].
  split; [ reflexivity | split; [ vm_compute; reflexivity | ] ].
  split; [ vm_compute; reflexivity | ].
  intros H. vm_compute in H. apply H. reflexivity.
Qed.

(** C5, amended: on the canvas of the session (1280 x 720) and for every
    integral cell size from 1 to 1280, which covers every [gridSize] the keys
    can produce, the loops of a frame run over
    [cols = floor(1280 / gridSize)] columns and
    [rows = floor(720 / gridSize)] rows, and [cols * gridSize <= 1280],
    [rows * gridSize <= 720]. *)
Theorem grid_dimensions (s : Sketch64.Sketch) (h : Sketch64.Host) (g : Z) :
  (1 <= g <= 1280)%Z -> Sketch64.gridSize s = Sketch64.lit g ->
  Sketch64.width h = canvasWidth -> Sketch64.height h = canvasHeight ->
  let cols := floor (inject_Z canvasWidth / inject_Z g) in
  let rows := floor (inject_Z canvasHeight / inject_Z g) in
  Sketch64.loopCount (Sketch64.floor (Binary64.div (Sketch64.lit (Sketch64.width h))
                                                   (Sketch64.gridSize s)))
  = Some cols /\
  Sketch64.loopCount (Sketch64.floor (Binary64.div (Sketch64.lit (Sketch64.height h))
                                                   (Sketch64.gridSize s)))
  = Some rows /\
  (exists s' calls,
     Sketch64.draw s h = Some (s', calls) /\
     Z.of_nat (Sketch64.countDisks calls) = (cols * rows)%Z) /\
  (cols * g <= canvasWidth)%Z /\ (rows * g <= canvasHeight)%Z.
Proof.
  intros Hg Es Ew Eh cols rows.
  destruct (gridDim_integral g Hg) as [Hc Hr].
  assert (Ecols : cols = (canvasWidth / g)%Z) by apply floor_inject_div.
  assert (Erows : rows = (canvasHeight / g)%Z) by apply floor_inject_div.
  rewrite Es, Ew, Eh, Ecols, Erows.
  assert (Hcn : (0 <= canvasWidth / g)%Z) by (apply Z.div_pos; unfold canvasWidth; lia).
  assert (Hrn : (0 <= canvasHeight / g)%Z)
    by (apply Z.div_pos; unfold canvasHeight; lia).
  split; [ exact Hc | split; [ exact Hr | split; [ | split ] ] ].
  - destruct (draw64_calls s h (canvasWidth / g) (canvasHeight / g)) as [s' [_ [_ [_ E]]]].
    + rewrite Es, Ew. exact Hc.
    + rewrite Es, Eh. exact Hr.
    + exists s'. eexists. split; [ exact E | ].
      unfold Sketch64.countDisks. rewrite filter_app, length_app.
      cbn [Sketch64.prelude filter Sketch64.isCylinder length].
      change (length (filter Sketch64.isCylinder (Sketch64.grid ?a ?c ?r ?n ?m)))
        with (Sketch64.countDisks (Sketch64.grid a c r n m)).
      rewrite grid64_disks. lia.
  - rewrite Z.mul_comm. apply Z.mul_div_le. lia.
  - rewrite Z.mul_comm. apply Z.mul_div_le. lia.
Qed.

Lemma grid_dimensions_witness :
  Sketch64.loopCount (Sketch64.floor (Binary64.div (Sketch64.lit canvasWidth)
                                                   (Sketch64.lit 20)))
  = Some 64%Z /\ (64 * 20 <= canvasWidth)%Z.
Proof.
  assert (Hg : (1 <= 20 <= 1280)%Z) by lia.
  destruct (grid_dimensions Sketch64.setup firstHost64 20 Hg eq_refl eq_refl eq_refl)
    as [Hc [_ [_ [Hfit _]]]].
  split; [ exact Hc | exact Hfit ].
Defined.

(** ** Monotonicity of the mappings *)

Lemma nondecreasing_nth (l : list spec_float) (i j : nat) (a b : spec_float) :
  nondecreasing l = true -> (i <= j)%nat ->
  nth_error l i = Some a -> nth_error l j = Some b ->
  exists x y : Q, Binary64.to_Q a = Some x /\ Binary64.to_Q b = Some y /\ x <= y.
Proof.
  revert i j a b. induction l as [ | c l IH ]; intros i j a b H Hij Ha Hb.
  - destruct i; discriminate.
  - cbn [nondecreasing] in H.
    destruct (Binary64.to_Q c) as [x | ] eqn:Ec; [ | discriminate ].
    assert (Htail : nondecreasing l = true).
    { destruct l as [ | d l' ]; [ reflexivity | ].
      destruct (Binary64.to_Q d); [ | discriminate ].
      apply andb_prop in H. apply H. }
    destruct i as [ | i ].
    + cbn in Ha. injection Ha as <-.
      destruct j as [ | j ].
      * cbn in Hb. injection Hb as <-. exists x, x.
        split; [ exact Ec | split; [ exact Ec | apply Qle_refl ] ].
      * cbn [nth_error] in Hb.
        destruct l as [ | d l' ]; [ destruct j; discriminate | ].
        destruct (Binary64.to_Q d) as [y | ] eqn:Ed; [ | discriminate ].
        apply andb_prop in H. destruct H as [Hxy _]. apply Qle_bool_imp_le in Hxy.
        destruct (IH 0%nat j d b Htail ltac:(lia) eq_refl Hb)
          as [y' [z [Ey' [Ez Hyz]]]].
        rewrite Ed in Ey'. injection Ey' as <-.
        exists x, z. split; [ exact Ec | split; [ exact Ez | ] ].
        apply Qle_trans with y; assumption.
    + destruct j as [ | j ]; [ lia | ]. cbn [nth_error] in Ha, Hb.
      apply (IH i j a b Htail ltac:(lia) Ha Hb).
Qed.

Lemma rotations_hold : nondecreasing rotations = true.
Proof. vm_compute. reflexivity. Qed.

Lemma depths_hold : nondecreasing depths = true.
Proof. vm_compute. reflexivity. Qed.

Lemma nth_error_rotations (s : Z) :
  (0 <= s <= 765)%Z ->
  nth_error rotations (Z.to_nat s) = Some (Sketch64.rotationOf (brightnessOfSum s)).
Proof.
  intros Hs. unfold rotations.
  rewrite nth_error_map, (nth_error_range 766 s ltac:(lia)). reflexivity.
Qed.

Lemma nth_error_depths (s : Z) :
  (0 <= s <= 765)%Z ->
  nth_error depths (Z.to_nat s) = Some (Sketch64.zDepthOf (brightnessOfSum s)).
Proof.
  intros Hs. unfold depths.
  rewrite nth_error_map, (nth_error_range 766 s ltac:(lia)). reflexivity.
Qed.

Lemma rotation_of_sums (s1 s2 : Z) :
  (0 <= s1)%Z -> (s1 <= s2)%Z -> (s2 <= 765)%Z ->
  exists x y : Q,
    Binary64.to_Q (Sketch64.rotationOf (brightnessOfSum s1)) = Some x /\
    Binary64.to_Q (Sketch64.rotationOf (brightnessOfSum s2)) = Some y /\
    x <= y.
Proof.
  intros H0 H12 H2.
  apply (nondecreasing_nth rotations (Z.to_nat s1) (Z.to_nat s2) _ _ rotations_hold);
    [ lia | apply nth_error_rotations; lia | apply nth_error_rotations; lia ].
Qed.

Lemma depth_of_sums (s1 s2 : Z) :
  (0 <= s1)%Z -> (s1 <= s2)%Z -> (s2 <= 765)%Z ->
  exists x y : Q,
    Binary64.to_Q (Sketch64.zDepthOf (brightnessOfSum s1)) = Some x /\
    Binary64.to_Q (Sketch64.zDepthOf (brightnessOfSum s2)) = Some y /\
    x <= y.
Proof.
  intros H0 H12 H2.
  apply (nondecreasing_nth depths (Z.to_nat s1) (Z.to_nat s2) _ _ depths_hold);
    [ lia | apply nth_error_depths; lia | apply nth_error_depths; lia ].
Qed.

Lemma mapping_ends :
  Binary64.denotes (Sketch64.rotationOf (brightnessOfSum 0)) 0 /\
  Binary64.denotes (Sketch64.rotationOf (brightnessOfSum 765)) PI /\
  Binary64.denotes (Sketch64.zDepthOf (brightnessOfSum 0)) (-100) /\
  Binary64.denotes (Sketch64.zDepthOf (brightnessOfSum 765)) 100.
Proof. vm_compute. repeat split. Qed.

(** C9: the rotation and the depth of a disk do not decrease when the
    brightness grows, and for a brightness in [0, 255] the rotation lies in
    [0, PI] and the depth in [-100, 100].  This holds of the mappings of
    lines 66-71 read on exact numbers, for all brightness values, and of the
    binary64 values that a frame computes from the bytes of two pixels. *)
Theorem mappings_monotone_and_bounded :
  (forall b1 b2 : Q,
     0 <= b1 -> b1 <= b2 -> b2 <= 255 ->
     exists r1 r2 d1 d2 : Q,
       rotationOf (Some b1) = Some r1 /\ rotationOf (Some b2) = Some r2 /\
       zDepthOf (Some b1) = Some d1 /\ zDepthOf (Some b2) = Some d2 /\
       r1 <= r2 /\ d1 <= d2 /\
       0 <= r1 /\ r2 <= PI /\ -100 <= d1 /\ d2 <= 100)
  /\
  (forall r1 g1 b1 r2 g2 b2 : Z,
     (0 <= r1 <= 255)%Z -> (0 <= g1 <= 255)%Z -> (0 <= b1 <= 255)%Z ->
     (0 <= r2 <= 255)%Z -> (0 <= g2 <= 255)%Z -> (0 <= b2 <= 255)%Z ->
     (r1 + g1 + b1 <= r2 + g2 + b2)%Z ->
     let brightness1 := Sketch64.brightness (Some r1) (Some g1) (Some b1) in
     let brightness2 := Sketch64.brightness (Some r2) (Some g2) (Some b2) in
     exists rot1 rot2 dep1 dep2 : Q,
       Binary64.to_Q (Sketch64.rotationOf brightness1) = Some rot1 /\
       Binary64.to_Q (Sketch64.rotationOf brightness2) = Some rot2 /\
       Binary64.to_Q (Sketch64.zDepthOf brightness1) = Some dep1 /\
       Binary64.to_Q (Sketch64.zDepthOf brightness2) = Some dep2 /\
       rot1 <= rot2 /\ dep1 <= dep2 /\
       0 <= rot1 /\ rot2 <= PI /\ -100 <= dep1 /\ dep2 <= 100).
Proof.
  split.
  - intros b1 b2 H0 H12 H255.
    exists (map b1 0 255 0 PI), (map b2 0 255 0 PI),
           (map b1 0 255 (-100) 100), (map b2 0 255 (-100) 100).
    repeat (split; [ reflexivity | ]).
    pose proof (map_rotation_range b1 ltac:(split; lra)) as [R1 _].
    pose proof (map_rotation_range b2 ltac:(split; lra)) as [_ R2].
    pose proof (map_depth_range b1 ltac:(split; lra)) as [D1 _].
    pose proof (map_depth_range b2 ltac:(split; lra)) as [_ D2].
    split; [ | split; [ | repeat split; assumption ] ].
    + rewrite !map_rotation. apply Qmult_le_compat_r; [ exact H12 | discriminate ].
    + rewrite !map_depth. lra.
  - intros r1 g1 b1 r2 g2 b2 Hr1 Hg1 Hb1 Hr2 Hg2 Hb2 Hsum brightness1 brightness2.
    unfold brightness1, brightness2.
    rewrite (brightness_of_bytes r1 g1 b1), (brightness_of_bytes r2 g2 b2)
      by assumption.
    set (s1 := (r1 + g1 + b1)%Z) in *. set (s2 := (r2 + g2 + b2)%Z) in *.
    assert (Hs1 : (0 <= s1)%Z) by (unfold s1; lia).
    assert (Hs2 : (s2 <= 765)%Z) by (unfold s2; lia).
    destruct (rotation_of_sums s1 s2 Hs1 Hsum Hs2) as [x1 [x2 [Ex1 [Ex2 Hx]]]].
    destruct (depth_of_sums s1 s2 Hs1 Hsum Hs2) as [y1 [y2 [Ey1 [Ey2 Hy]]]].
    destruct (rotation_of_sums 0 s1 ltac:(lia) Hs1 ltac:(lia)) as [x0 [x1' [Ex0 [Ex1' Hx0]]]].
    destruct (rotation_of_sums s2 765 ltac:(lia) Hs2 ltac:(lia)) as [x2' [xe [Ex2' [Exe Hxe]]]].
    destruct (depth_of_sums 0 s1 ltac:(lia) Hs1 ltac:(lia)) as [y0 [y1' [Ey0 [Ey1' Hy0]]]].
    destruct (depth_of_sums s2 765 ltac:(lia) Hs2 ltac:(lia)) as [y2' [ye [Ey2' [Eye Hye]]]].
    rewrite Ex1 in Ex1'. injection Ex1' as <-.
    rewrite Ex2 in Ex2'. injection Ex2' as <-.
    rewrite Ey1 in Ey1'. injection Ey1' as <-.
    rewrite Ey2 in Ey2'. injection Ey2' as <-.
    destruct mapping_ends as [R0 [Re [D0 De]]].
    unfold Binary64.denotes in R0, Re, D0, De.
    rewrite Ex0 in R0. rewrite Exe in Re. rewrite Ey0 in D0. rewrite Eye in De.
    cbn [num_eq] in R0, Re, D0, De.
    exists x1, x2, y1, y2.
    split; [ exact Ex1 | split; [ exact Ex2 | ] ].
    split; [ exact Ey1 | split; [ exact Ey2 | ] ].
    split; [ exact Hx | split; [ exact Hy | ] ].
    repeat split; lra.
Qed.

Lemma mappings_monotone_and_bounded_witness :
  exists rot1 rot2 : Q,
    Binary64.to_Q (Sketch64.rotationOf
                     (Sketch64.brightness (Some 0%Z) (Some 0%Z) (Some 1%Z)))
    = Some rot1 /\
    Binary64.to_Q (Sketch64.rotationOf
                     (Sketch64.brightness (Some 10%Z) (Some 20%Z) (Some 30%Z)))
    = Some rot2 /\
    rot1 <= rot2.
Proof.
  destruct (proj2 mappings_monotone_and_bounded 0 0 1 10 20 30)%Z
    as [rot1 [rot2 [_ [_ [E1 [E2 [_ [_ [H _]]]]]]]]]; try lia.
  exists rot1, rot2. repeat split; assumption.
Defined.

(** ** Positions of the disks *)

Lemma positions_hold : forallb positionsChecked (range 31) = true.
Proof. vm_compute. reflexivity. Qed.

Lemma position_integral (g i : Z) :
  (10 <= g <= 40)%Z -> (0 <= i < canvasWidth / g)%Z ->
  exists q : Q,
    Binary64.to_Q (Sketch64.position i (Sketch64.lit g)) = Some q /\
    q == inject_Z i * inject_Z g + inject_Z g / 2.
Proof.
  intros Hg Hi.
  pose proof (forallb_range _ _ (g - 10) positions_hold ltac:(lia)) as H.
  unfold positionsChecked in H. replace (g - 10 + 10)%Z with g in H by lia.
  pose proof (forallb_range _ _ i H Hi) as Hq. unfold positionChecked in Hq.
  destruct (Binary64.to_Q (Sketch64.position i (Sketch64.lit g))) as [q | ];
    [ | discriminate ].
  exists q. split; [ reflexivity | apply Qeq_bool_eq, Hq ].
Qed.

Lemma centre_fits (canvasDim g i : Z) :
  (0 < g)%Z -> (0 <= i < canvasDim / g)%Z ->
  inject_Z g / 2 <= inject_Z i * inject_Z g + inject_Z g / 2
    <= inject_Z canvasDim - inject_Z g / 2.
Proof.
  intros Hg Hi.
  assert (H : ((i + 1) * g <= canvasDim)%Z).
  { pose proof (Z.mul_div_le canvasDim g Hg). nia. }
  assert (H0 : (0 <= i * g)%Z) by nia.
  rewrite Zle_Qle in H, H0. rewrite inject_Z_mult, inject_Z_plus in H.
  rewrite inject_Z_mult in H0. change (inject_Z 0) with 0 in H0.
  change (inject_Z 1) with 1 in H.
  assert (E : (inject_Z i + 1) * inject_Z g == inject_Z i * inject_Z g + inject_Z g)
    by ring.
  rewrite E in H. unfold Qdiv. change (/ 2) with (1 # 2).
  set (p := inject_Z i * inject_Z g) in *. split; lra.
Qed.

(** X8: on the canvas of the session and for every integral [gridSize] from
    10 to 40, the disk of every cell [(x, y)] is translated to exactly
    [(x * gridSize + gridSize / 2, y * gridSize + gridSize / 2)], which lies
    inside the canvas at least [gridSize / 2] away from each border. *)
Theorem disk_centres_inside_canvas (s : Sketch64.Sketch) (h : Sketch64.Host)
        (g x y : Z) :
  (10 <= g <= 40)%Z -> Sketch64.gridSize s = Sketch64.lit g ->
  Sketch64.width h = canvasWidth -> Sketch64.height h = canvasHeight ->
  let cols := (canvasWidth / g)%Z in
  let rows := (canvasHeight / g)%Z in
  let centre i := inject_Z i * inject_Z g + inject_Z g / 2 in
  (0 <= x < cols)%Z -> (0 <= y < rows)%Z ->
  exists s' calls xPos yPos zDepth,
    Sketch64.draw s h = Some (s', calls) /\
    nth_error calls (callsBeforeGrid + cellIndex cols x y 1)
    = Some (Sketch64.translate xPos yPos zDepth) /\
    Binary64.denotes xPos (centre x) /\ Binary64.denotes yPos (centre y) /\
    inject_Z g / 2 <= centre x <= inject_Z canvasWidth - inject_Z g / 2 /\
    inject_Z g / 2 <= centre y <= inject_Z canvasHeight - inject_Z g / 2.
Proof.
  intros Hg Es Ew Eh cols rows centre Hx Hy.
  destruct (gridDim_integral g ltac:(lia)) as [Hc Hr].
  assert (H1 : (1 < callsPerCell)%nat) by (unfold callsPerCell; lia).
  destruct (nth_error_draw64 s h cols rows x y 1) as [s' [calls [E [_ [Eg [_ Hn]]]]]];
    try assumption.
  { rewrite Es, Ew. exact Hc. }
  { rewrite Es, Eh. exact Hr. }
  assert (Hy' : (0 <= y < canvasWidth / g)%Z).
  { split; [ lia | ]. apply Z.lt_le_trans with rows; [ lia | ].
    unfold rows. apply Z.div_le_mono; [ lia | unfold canvasHeight, canvasWidth; lia ]. }
  destruct (position_integral g x Hg Hx) as [qx [Ex Hqx]].
  destruct (position_integral g y Hg Hy') as [qy [Ey Hqy]].
  exists s', calls.
  exists (Sketch64.position x (Sketch64.lit g)), (Sketch64.position y (Sketch64.lit g)).
  eexists. split; [ exact E | split ].
  - rewrite Hn. unfold Sketch64.cell. cbn [nth_error]. rewrite Eg, Es. reflexivity.
  - unfold Binary64.denotes. rewrite Ex, Ey. cbn [num_eq].
    split; [ exact Hqx | split; [ exact Hqy | ] ].
    split; apply centre_fits; lia.
Qed.

Lemma disk_centres_inside_canvas_witness :
  exists s' calls xPos yPos zDepth,
    Sketch64.draw Sketch64.setup firstHost64 = Some (s', calls) /\
    nth_error calls (callsBeforeGrid + cellIndex (canvasWidth / 20) 63 35 1)
    = Some (Sketch64.translate xPos yPos zDepth) /\
    Binary64.denotes xPos (inject_Z 63 * inject_Z 20 + inject_Z 20 / 2).
Proof.
  assert (Hg : (10 <= 20 <= 40)%Z) by lia.
  assert (Hx : (0 <= 63 < canvasWidth / 20)%Z) by (split; [ lia | reflexivity ]).
  assert (Hy : (0 <= 35 < canvasHeight / 20)%Z) by (split; [ lia | reflexivity ]).
  destruct (disk_centres_inside_canvas Sketch64.setup firstHost64 20 63 35 Hg
              eq_refl eq_refl eq_refl Hx Hy)
    as [s' [calls [xPos [yPos [zDepth [E [Hn [Dx _]]]]]]]].
  exists s', calls, xPos, yPos, zDepth.
  split; [ exact E | split; [ exact Hn | exact Dx ] ].
Defined.

(** ** Cells beyond the loaded image *)

Lemma add_nan_r (x : spec_float) : Binary64.add x S754_nan = S754_nan.
Proof. destruct x; reflexivity. Qed.

Lemma brightness64_missing_blue (r g : option Z) :
  Sketch64.brightness r g None = S754_nan.
Proof.
  unfold Sketch64.brightness. cbn [Sketch64.of_value]. rewrite add_nan_r.
  reflexivity.
Qed.

Lemma read_empty (i : spec_float) : Sketch64.read [] i = None.
Proof.
  unfold Sketch64.read. destruct (Sketch64.index i) as [k | ]; [ | reflexivity ].
  apply get_out_of_bounds. cbn [length]. lia.
Qed.

(** X12: in a frame whose loops end, a cell whose blue byte lies beyond the
    loaded image is drawn all the same, with the current [diskRadius] and a
    [NaN] rotation and depth; while the image is empty every cell is in this
    case and its material colour is (undefined, undefined, undefined). *)
Theorem cell_beyond_image (s : Sketch64.Sketch) (h : Sketch64.Host)
        (ncols nrows x y : Z) :
  let cols := Sketch64.gridDim (Sketch64.width h) (Sketch64.gridSize s) in
  let rows := Sketch64.gridDim (Sketch64.height h) (Sketch64.gridSize s) in
  let offset :=
    Sketch64.pixelOffset (Capture.width (Sketch64.capture s))
                         (Capture.height (Sketch64.capture s)) cols rows x y in
  Sketch64.loopCount cols = Some ncols -> Sketch64.loopCount rows = Some nrows ->
  (0 <= x < ncols)%Z -> (0 <= y < nrows)%Z ->
  exists s' calls,
    Sketch64.draw s h = Some (s', calls) /\
    let call j := nth_error calls (callsBeforeGrid + cellIndex ncols x y j) in
    call 5%nat = Some (Sketch64.cylinder (Sketch64.diskRadius s) (Sketch64.lit 2)) /\
    (Sketch64.read (Sketch64.video h) (Binary64.add offset (Sketch64.lit 2)) = None ->
     call 1%nat = Some (Sketch64.translate (Sketch64.position x (Sketch64.gridSize s))
                                           (Sketch64.position y (Sketch64.gridSize s))
                                           S754_nan) /\
     call 2%nat = Some (Sketch64.rotateX S754_nan)) /\
    (Sketch64.video h = [] ->
     call 2%nat = Some (Sketch64.rotateX S754_nan) /\
     call 3%nat = Some (Sketch64.specularMaterial None None None)).
Proof.
  intros cols rows offset Hc Hr Hx Hy.
  destruct (draw64_calls s h ncols nrows Hc Hr) as [s' [Ecap [Eg [Ed E]]]].
  exists s'. eexists. split; [ exact E | ].
  intros call.
  assert (Hcall : forall j, (j < callsPerCell)%nat ->
            call j = nth_error (Sketch64.cell s' cols rows x y) j).
  { intros j Hj. unfold call.
    rewrite nth_error_app2
      by (cbn [Sketch64.prelude length]; unfold callsBeforeGrid; lia).
    change (length (Sketch64.prelude h)) with callsBeforeGrid.
    rewrite Nat.add_comm, Nat.add_sub. apply nth_error_grid64; assumption. }
  rewrite !Hcall by (unfold callsPerCell; lia).
  unfold Sketch64.cell. cbn [nth_error]. rewrite Ecap, Eg, Ed.
  cbn [loadPixels Capture.width Capture.height Capture.pixels]. fold offset.
  split; [ reflexivity | split ].
  - intros Hb. rewrite Hb, brightness64_missing_blue. split; reflexivity.
  - intros Hempty. rewrite Hempty, !read_empty. split; reflexivity.
Qed.

Lemma cell_beyond_image_witness :
  exists s' calls,
    Sketch64.draw Sketch64.setup
                  {| Sketch64.width := canvasWidth; Sketch64.height := canvasHeight;
                     Sketch64.mouseX := Sketch64.lit 0;
                     Sketch64.mouseY := Sketch64.lit 0; Sketch64.video := [] |}
    = Some (s', calls) /\
    nth_error calls (callsBeforeGrid + cellIndex 64 0 0 3)
    = Some (Sketch64.specularMaterial None None None).
Proof.
  assert (Hx : (0 <= 0 < 64)%Z) by lia.
  assert (Hy : (0 <= 0 < 36)%Z) by lia.
  destruct (cell_beyond_image Sketch64.setup
              {| Sketch64.width := canvasWidth; Sketch64.height := canvasHeight;
                 Sketch64.mouseX := Sketch64.lit 0;
                 Sketch64.mouseY := Sketch64.lit 0; Sketch64.video := [] |}
              64 36 0 0 eq_refl eq_refl Hx Hy) as [s' [calls [E [_ [_ H]]]]].
  exists s', calls. split; [ exact E | apply H; reflexivity ].
Defined.

(** ** Hue of a pixel *)

Lemma hues_hold : nondecreasing hues = true.
Proof. vm_compute. reflexivity. Qed.

Lemma nth_error_hues (s : Z) :
  (0 <= s <= 765)%Z ->
  nth_error hues (Z.to_nat s) = Some (Sketch64.hsbValue (brightnessOfSum s)).
Proof.
  intros Hs. unfold hues.
  rewrite nth_error_map, (nth_error_range 766 s ltac:(lia)). reflexivity.
Qed.

Lemma hue_of_sums (s1 s2 : Z) :
  (0 <= s1)%Z -> (s1 <= s2)%Z -> (s2 <= 765)%Z ->
  exists x y : Q,
    Binary64.to_Q (Sketch64.hsbValue (brightnessOfSum s1)) = Some x /\
    Binary64.to_Q (Sketch64.hsbValue (brightnessOfSum s2)) = Some y /\
    x <= y.
Proof.
  intros H0 H12 H2.
  apply (nondecreasing_nth hues (Z.to_nat s1) (Z.to_nat s2) _ _ hues_hold);
    [ lia | apply nth_error_hues; lia | apply nth_error_hues; lia ].
Qed.

Lemma hue_ends :
  Binary64.denotes (Sketch64.hsbValue (brightnessOfSum 0)) 0 /\
  Binary64.denotes (Sketch64.hsbValue (brightnessOfSum 765)) 360 /\
  (exists q, Binary64.to_Q (Sketch64.hsbValue (brightnessOfSum 1)) = Some q /\ 0 < q) /\
  (exists q, Binary64.to_Q (Sketch64.hsbValue (brightnessOfSum 764)) = Some q /\
             q < 360).
Proof.
  split; [ vm_compute; reflexivity | split; [ vm_compute; reflexivity | split ] ];
    eexists; (split; [ vm_compute; reflexivity | reflexivity ]).
Qed.

(** X18: for channel bytes the hue angle of the README's conversion,
    [map((r + g + b) / 3, 0, 255, 0, 360)] evaluated in binary64, lies
    between 0 and 360 and does not decrease when the sum of the bytes grows;
    it is 0 only for a black pixel and reaches 360, the upper end of the
    range, exactly for a white one. *)
Theorem hue_of_bytes (r g b : Z) :
  (0 <= r <= 255)%Z -> (0 <= g <= 255)%Z -> (0 <= b <= 255)%Z ->
  exists hue : Q,
    Binary64.to_Q (Sketch64.hsbValue (Sketch64.brightness (Some r) (Some g) (Some b)))
    = Some hue /\
    0 <= hue <= 360 /\
    (hue == 0 <-> r = 0%Z /\ g = 0%Z /\ b = 0%Z) /\
    (hue == 360 <-> r = 255%Z /\ g = 255%Z /\ b = 255%Z) /\
    (forall r' g' b' : Z,
       (0 <= r' <= 255)%Z -> (0 <= g' <= 255)%Z -> (0 <= b' <= 255)%Z ->
       (r + g + b <= r' + g' + b')%Z ->
       exists hue' : Q,
         Binary64.to_Q (Sketch64.hsbValue
                          (Sketch64.brightness (Some r') (Some g') (Some b')))
         = Some hue' /\ hue <= hue').
Proof.
  intros Hr Hg Hb. rewrite (brightness_of_bytes r g b Hr Hg Hb).
  set (s := (r + g + b)%Z).
  assert (Hs : (0 <= s <= 765)%Z) by (unfold s; lia).
  destruct hue_ends as [E0 [E765 [[q1 [E1 Hq1]] [q764 [E764 Hq764]]]]].
  unfold Binary64.denotes in E0, E765.
  destruct (hue_of_sums 0 s ltac:(lia) ltac:(lia) ltac:(lia)) as [x0 [hue [Ex0 [Eh H0]]]].
  destruct (hue_of_sums s 765 ltac:(lia) ltac:(lia) ltac:(lia))
    as [hue' [x765 [Eh' [Ex765 H765]]]].
  rewrite Eh in Eh'. injection Eh' as <-.
  rewrite Ex0 in E0. rewrite Ex765 in E765. cbn [num_eq] in E0, E765.
  exists hue. split; [ exact Eh | split; [ split; lra | ] ].
  split; [ | split ].
  - split.
    + intros Hz. destruct (Z.eq_dec s 0) as [Es | Hne]; [ unfold s in Es; lia | ].
      destruct (hue_of_sums 1 s ltac:(lia) ltac:(lia) ltac:(lia))
        as [y1 [y [Ey1 [Ey Hy]]]].
      rewrite E1 in Ey1. injection Ey1 as <-.
      rewrite Eh in Ey. injection Ey as <-. lra.
    + intros [-> [-> ->]]. change s with 0%Z in Eh.
      rewrite Ex0 in Eh. injection Eh as <-. exact E0.
  - split.
    + intros Hz. destruct (Z.eq_dec s 765) as [Es | Hne]; [ unfold s in Es; lia | ].
      destruct (hue_of_sums s 764 ltac:(lia) ltac:(lia) ltac:(lia))
        as [y [y764 [Ey [Ey764 Hy]]]].
      rewrite E764 in Ey764. injection Ey764 as <-.
      rewrite Eh in Ey. injection Ey as <-. lra.
    + intros [-> [-> ->]]. change s with 765%Z in Eh.
      rewrite Ex765 in Eh. injection Eh as <-. exact E765.
  - intros r' g' b' Hr' Hg' Hb' Hle.
    rewrite (brightness_of_bytes r' g' b' Hr' Hg' Hb').
    destruct (hue_of_sums s (r' + g' + b') ltac:(lia) Hle ltac:(lia))
      as [y [y' [Ey [Ey' Hy]]]].
    rewrite Eh in Ey. injection Ey as <-.
    exists y'. split; assumption.
Qed.

Lemma hue_of_bytes_witness :
  exists hue : Q,
    Binary64.to_Q (Sketch64.hsbValue
                     (Sketch64.brightness (Some 255%Z) (Some 255%Z) (Some 255%Z)))
    = Some hue /\ hue == 360.
Proof.
  destruct (hue_of_bytes 255 255 255) as [hue [E [_ [_ [H _]]]]]; try lia.
  exists hue. split; [ exact E | ]. apply H. repeat split.
Defined.

(** ** Order of the samples *)

Lemma increasing_bound (l : list (option Z)) :
  forall (prev bound : Z) (j : nat) (b : option Z),
    increasing prev bound l = true -> nth_error l j = Some b ->
    exists c : Z, b = Some c /\ (prev < c < bound)%Z.
Proof.
  induction l as [ | [c | ] rest IH ]; intros prev bound j b H Hj.
  - destruct j; discriminate.
  - cbn [increasing] in H. apply andb_prop in H. destruct H as [H Hrest].
    apply andb_prop in H. destruct H as [Hp Hb].
    apply Z.ltb_lt in Hp, Hb.
    destruct j as [ | j ]; cbn [nth_error] in Hj.
    + injection Hj as <-. exists c. split; [ reflexivity | lia ].
    + destruct (IH c bound j b Hrest Hj) as [c' [E Hc']].
      exists c'. split; [ exact E | lia ].
  - discriminate.
Qed.

Lemma increasing_nth (l : list (option Z)) :
  forall (prev bound : Z) (i j : nat) (a b : option Z),
    increasing prev bound l = true -> (i < j)%nat ->
    nth_error l i = Some a -> nth_error l j = Some b ->
    exists c1 c2 : Z,
      a = Some c1 /\ b = Some c2 /\ (prev < c1)%Z /\ (c1 < c2)%Z /\ (c2 < bound)%Z.
Proof.
  induction l as [ | [c | ] rest IH ]; intros prev bound i j a b H Hij Hi Hj.
  - destruct i; discriminate.
  - cbn [increasing] in H. apply andb_prop in H. destruct H as [H Hrest].
    apply andb_prop in H. destruct H as [Hp Hb].
    apply Z.ltb_lt in Hp, Hb.
    destruct j as [ | j ]; [ lia | ]. cbn [nth_error] in Hj.
    destruct i as [ | i ]; cbn [nth_error] in Hi.
    + injection Hi as <-.
      destruct (increasing_bound rest c bound j b Hrest Hj) as [c2 [E Hc2]].
      exists c, c2. repeat split; try assumption; lia.
    + destruct (IH c bound i j a b Hrest ltac:(lia) Hi Hj)
        as [c1 [c2 [E1 [E2 [H1 [H2 H3]]]]]].
      exists c1, c2. repeat split; try assumption; lia.
  - discriminate.
Qed.

Lemma samples_hold : forallb samplesChecked (range 31) = true.
Proof. vm_compute. reflexivity. Qed.

Lemma nth_error_sampledCoords (canvasDim captureDim g i : Z) :
  (0 <= i < canvasDim / g)%Z ->
  nth_error (sampledCoords canvasDim captureDim g) (Z.to_nat i)
  = Some (Sketch64.index
            (Sketch64.captureCoord i (Sketch64.gridDim canvasDim (Sketch64.lit g))
                                   captureDim)).
Proof.
  intros Hi. unfold sampledCoords.
  rewrite nth_error_map, (nth_error_range _ i Hi). reflexivity.
Qed.

(** X10: on the canvas and the capture of the session and for every integral
    [gridSize] from 10 to 40, the capture column that the code samples, in
    binary64, lies in the capture and grows strictly with the column of the
    cell, and likewise for the rows: two columns of the grid never sample the
    same column of the image.  For other dimensions the order can collapse:
    of 22 columns over 22 pixels, the columns 14 and 15 both sample the
    pixel 14. *)
Theorem sampling_preserves_order :
  (forall g i j : Z,
     (10 <= g <= 40)%Z ->
     let cols := Sketch64.gridDim canvasWidth (Sketch64.lit g) in
     let rows := Sketch64.gridDim canvasHeight (Sketch64.lit g) in
     ((0 <= i)%Z -> (i < j)%Z -> (j < canvasWidth / g)%Z ->
      exists c1 c2 : Z,
        Sketch64.index (Sketch64.captureCoord i cols 192) = Some c1 /\
        Sketch64.index (Sketch64.captureCoord j cols 192) = Some c2 /\
        (0 <= c1)%Z /\ (c1 < c2)%Z /\ (c2 < 192)%Z) /\
     ((0 <= i)%Z -> (i < j)%Z -> (j < canvasHeight / g)%Z ->
      exists c1 c2 : Z,
        Sketch64.index (Sketch64.captureCoord i rows 108) = Some c1 /\
        Sketch64.index (Sketch64.captureCoord j rows 108) = Some c2 /\
        (0 <= c1)%Z /\ (c1 < c2)%Z /\ (c2 < 108)%Z))
  /\ Sketch64.index (Sketch64.captureCoord 14 (Sketch64.lit 22) 22) = Some 14%Z
  /\ Sketch64.index (Sketch64.captureCoord 15 (Sketch64.lit 22) 22) = Some 14%Z.
Proof.
  split; [ | split; vm_compute; reflexivity ].
  intros g i j Hg cols rows.
  pose proof (forallb_range _ _ (g - 10) samples_hold ltac:(lia)) as H.
  unfold samplesChecked in H. replace (g - 10 + 10)%Z with g in H by lia.
  apply andb_prop in H. destruct H as [Hw Hh].
  split; intros Hi Hij Hj.
  - destruct (increasing_nth _ _ _ (Z.to_nat i) (Z.to_nat j) _ _ Hw ltac:(lia)
                (nth_error_sampledCoords canvasWidth 192 g i ltac:(lia))
                (nth_error_sampledCoords canvasWidth 192 g j ltac:(lia)))
      as [c1 [c2 [E1 [E2 [H1 [H2 H3]]]]]].
    exists c1, c2. repeat split; try assumption; lia.
  - destruct (increasing_nth _ _ _ (Z.to_nat i) (Z.to_nat j) _ _ Hh ltac:(lia)
                (nth_error_sampledCoords canvasHeight 108 g i ltac:(lia))
                (nth_error_sampledCoords canvasHeight 108 g j ltac:(lia)))
      as [c1 [c2 [E1 [E2 [H1 [H2 H3]]]]]].
    exists c1, c2. repeat split; try assumption; lia.
Qed.

Lemma sampling_preserves_order_witness :
  exists c1 c2 : Z,
    Sketch64.index
      (Sketch64.captureCoord 62 (Sketch64.gridDim canvasWidth (Sketch64.lit 20)) 192)
    = Some c1 /\
    Sketch64.index
      (Sketch64.captureCoord 63 (Sketch64.gridDim canvasWidth (Sketch64.lit 20)) 192)
    = Some c2 /\
    (c1 < c2)%Z.
Proof.
  assert (Hg : (10 <= 20 <= 40)%Z) by lia.
  assert (H0 : (0 <= 62)%Z) by lia.
  assert (H1 : (62 < 63)%Z) by lia.
  assert (H2 : (63 < canvasWidth / 20)%Z) by reflexivity.
  destruct (proj1 (proj1 sampling_preserves_order 20 62 63 Hg) H0 H1 H2)%Z
    as [c1 [c2 [E1 [E2 [_ [H _]]]]]].
  exists c1, c2. split; [ exact E1 | split; [ exact E2 | exact H ] ].
Defined.

(** ** The README's stepping loops *)

Lemma sameNumbers_eq (xs ys : list spec_float) : sameNumbers xs ys = true -> xs = ys.
Proof.
  revert ys. induction xs as [ | x xs IH ]; intros [ | y ys ] H;
    try reflexivity; try discriminate.
  cbn [sameNumbers] in H. apply andb_prop in H. destruct H as [Hx Hxs].
  apply sf_eqb_eq in Hx. rewrite Hx, (IH ys Hxs). reflexivity.
Qed.

(** A loop that ends keeps its result when it is given more fuel. *)
Lemma stepLoop_fuel (limit step : spec_float) (F : nat) :
  forall (v : spec_float) (xs : list spec_float),
    stepLoop F v limit step = Some xs ->
    forall f : nat, (length xs <= f)%nat -> stepLoop f v limit step = Some xs.
Proof.
  induction F as [ | F IH ]; intros v xs H f Hf.
  - cbn [stepLoop] in H. destruct (SFltb v limit) eqn:E; [ discriminate | ].
    injection H as <-. destruct f; cbn [stepLoop]; rewrite E; reflexivity.
  - cbn [stepLoop] in H. destruct (SFltb v limit) eqn:E.
    + destruct (stepLoop F (Binary64.add v step) limit step) as [ys | ] eqn:Ey;
        [ | discriminate ].
      cbn [option_map] in H. injection H as <-. cbn [length] in Hf.
      destruct f as [ | f ]; [ lia | ]. cbn [stepLoop]. rewrite E.
      rewrite (IH _ ys Ey f ltac:(lia)). reflexivity.
    + injection H as <-. destruct f; cbn [stepLoop]; rewrite E; reflexivity.
Qed.

Lemma stepLoop_nil (F : nat) (v limit step : spec_float) :
  stepLoop F v limit step = Some [] -> SFltb v limit = false.
Proof.
  intros H. destruct (SFltb v limit) eqn:E; [ | reflexivity ].
  destruct F as [ | F ]; cbn [stepLoop] in H; rewrite E in H; [ discriminate | ].
  destruct (stepLoop F (Binary64.add v step) limit step); discriminate.
Qed.

Lemma stepLoop_cons (F : nat) (v limit step x : spec_float) (xs : list spec_float) :
  stepLoop F v limit step = Some (x :: xs) ->
  SFltb v limit = true /\ x = v /\
  exists F', stepLoop F' (Binary64.add v step) limit step = Some xs.
Proof.
  intros H. destruct (SFltb v limit) eqn:E.
  - destruct F as [ | F ]; cbn [stepLoop] in H; rewrite E in H; [ discriminate | ].
    destruct (stepLoop F (Binary64.add v step) limit step) as [ys | ] eqn:Ey;
      [ | discriminate ].
    cbn [option_map] in H. injection H as <- <-.
    split; [ reflexivity | split; [ reflexivity | exists F; exact Ey ] ].
  - destruct F; cbn [stepLoop] in H; rewrite E in H; discriminate.
Qed.

Lemma stepLoops_hold : forallb stepLoopsChecked (range 1280) = true.
Proof. vm_compute. reflexivity. Qed.

Lemma multiples_length (limit g : Z) :
  length (multiples limit g) = Z.to_nat (stepCount limit g).
Proof. unfold multiples. rewrite length_map. apply range_length. Qed.

Lemma stepLoop_integral (limit g : Z) (fuel : nat) :
  limit = canvasWidth \/ limit = canvasHeight -> (1 <= g <= 1280)%Z ->
  (Z.to_nat (stepCount limit g) <= fuel)%nat ->
  stepLoop fuel (Sketch64.lit 0) (Sketch64.lit limit) (Sketch64.lit g)
  = Some (multiples limit g).
Proof.
  intros Hl Hg Hf.
  pose proof (forallb_range _ _ (g - 1) stepLoops_hold ltac:(lia)) as H.
  unfold stepLoopsChecked in H. replace (g - 1 + 1)%Z with g in H by lia.
  apply andb_prop in H. destruct H as [Hw Hh].
  assert (Hc : stepLoopChecked limit g = true) by (destruct Hl; subst; assumption).
  unfold stepLoopChecked in Hc.
  destruct (stepLoop (Z.to_nat limit) (Sketch64.lit 0) (Sketch64.lit limit)
                     (Sketch64.lit g)) as [xs | ] eqn:E; [ | discriminate ].
  apply sameNumbers_eq in Hc. subst xs.
  apply (stepLoop_fuel _ _ _ _ _ E). rewrite multiples_length. exact Hf.
Qed.

Lemma stepCount_spec (limit g : Z) :
  (0 < g)%Z -> (limit <= stepCount limit g * g < limit + g)%Z.
Proof.
  intros Hg. unfold stepCount.
  pose proof (Z.div_mod (limit + g - 1) g ltac:(lia)) as E.
  pose proof (Z.mod_pos_bound (limit + g - 1) g Hg) as Hm. nia.
Qed.

(** X19: the README's loop [for (v = 0; v < limit; v += step)], evaluated in
    binary64.  Up to the width or the height of the canvas and with an
    integral step from 1 to 1280 it ends, its counter takes the multiples of
    the step below the limit, in order, and the number [n] of its iterations
    satisfies [limit <= n * step < limit + step].  With the step 0 and a
    positive limit it never ends.  With a step that is not integral the
    counter accumulates rounding errors: with the step 0.1 and the limit 1
    the loop runs eleven times. *)
Theorem stepping_loop :
  (forall (limit g : Z) (fuel : nat),
     limit = canvasWidth \/ limit = canvasHeight -> (1 <= g <= 1280)%Z ->
     let n := ((limit + g - 1) / g)%Z in
     (Z.to_nat n <= fuel)%nat ->
     stepLoop fuel (Sketch64.lit 0) (Sketch64.lit limit) (Sketch64.lit g)
     = Some (List.map (fun k => Sketch64.lit (k * g)) (range n)) /\
     (limit <= n * g < limit + g)%Z)
  /\ (forall (limit : spec_float) (fuel : nat),
        SFltb (Sketch64.lit 0) limit = true ->
        stepLoop fuel (Sketch64.lit 0) limit (Sketch64.lit 0) = None)
  /\ (exists xs : list spec_float,
        stepLoop 11 (Sketch64.lit 0) (Sketch64.lit 1)
                 (Binary64.div (Sketch64.lit 1) (Sketch64.lit 10)) = Some xs /\
        length xs = 11%nat).
Proof.
  split; [ | split ].
  - intros limit g fuel Hl Hg n Hf. split.
    + apply (stepLoop_integral limit g fuel Hl Hg Hf).
    + apply stepCount_spec. lia.
  - intros limit fuel Hlt. induction fuel as [ | fuel IH ].
    + cbn [stepLoop]. rewrite Hlt. reflexivity.
    + cbn [stepLoop]. rewrite Hlt.
      change (Binary64.add (Sketch64.lit 0) (Sketch64.lit 0)) with (Sketch64.lit 0).
      rewrite IH. reflexivity.
  - eexists. split; [ vm_compute; reflexivity | reflexivity ].
Qed.

Lemma stepping_loop_witness :
  stepLoop 64 (Sketch64.lit 0) (Sketch64.lit canvasWidth) (Sketch64.lit 20)
  = Some (List.map (fun k => Sketch64.lit (k * 20)) (range 64)).
Proof.
  assert (Hg : (1 <= 20 <= 1280)%Z) by lia.
  assert (Hf : (Z.to_nat ((canvasWidth + 20 - 1) / 20) <= 64)%nat)
    by (vm_compute; lia).
  exact (proj1 (proj1 stepping_loop canvasWidth 20%Z 64%nat (or_introl eq_refl) Hg Hf)).
Defined.

(** ** The README's grid of rectangles *)

Lemma gridLoop_flat (width height g : spec_float) (xs : list spec_float) (Fx : nat) :
  stepLoop Fx (Sketch64.lit 0) width g = Some xs ->
  forall (ys : list spec_float) (Fy : nat) (y : spec_float) (fuel : nat),
    stepLoop Fy y height g = Some ys ->
    (length xs + length ys <= fuel)%nat ->
    gridLoop fuel y width height g
    = Some (flat_map (fun y' => List.map (fun x => rect x y' g g) xs) ys).
Proof.
  intros Hx ys. induction ys as [ | y0 ys IH ]; intros Fy y fuel Hy Hf.
  - apply stepLoop_nil in Hy.
    destruct fuel; cbn [gridLoop]; rewrite Hy; reflexivity.
  - apply stepLoop_cons in Hy. destruct Hy as [E [-> [Fy' Hy']]].
    cbn [length] in Hf. destruct fuel as [ | fuel ]; [ lia | ].
    cbn [gridLoop]. rewrite E.
    rewrite (stepLoop_fuel _ _ _ _ _ Hx (S fuel) ltac:(lia)).
    rewrite (IH Fy' _ fuel Hy' ltac:(lia)). reflexivity.
Qed.

Lemma flat_map_multiples {B : Type} (f : spec_float -> list B) (limit g : Z) :
  flat_map f (multiples limit g)
  = flat_map (fun k => f (Sketch64.lit (k * g))) (range (stepCount limit g)).
Proof.
  unfold multiples. induction (range (stepCount limit g)) as [ | k l IH ];
    [ reflexivity | ].
  cbn [List.map flat_map]. rewrite IH. reflexivity.
Qed.

Lemma tile_unique (limit g p : Z) :
  (0 < g)%Z -> (0 <= p < limit)%Z ->
  exists i : Z,
    (0 <= i < stepCount limit g)%Z /\ (i * g <= p < i * g + g)%Z /\
    forall i' : Z, (i' * g <= p < i' * g + g)%Z -> i' = i.
Proof.
  intros Hg Hp. exists (p / g)%Z.
  pose proof (Z.div_mod p g ltac:(lia)) as E.
  pose proof (Z.mod_pos_bound p g Hg) as Hm.
  pose proof (stepCount_spec limit g Hg) as Hn.
  split; [ split; [ apply Z.div_pos; lia | nia ] | split; [ nia | ] ].
  intros i' Hi'. nia.
Qed.

(** X20: on the 1280 x 720 canvas and with an integral [gridSize] from 1 to
    1280 the README's nested loops, evaluated in binary64, end and draw, row
    by row, one square of side [gridSize] per pair of multiples of
    [gridSize] below the width and the height; these squares tile the
    canvas: every pixel lies in the square of exactly one pair. *)
Theorem readme_grid_tiles_canvas (g : Z) (fuel : nat) :
  (1 <= g <= 1280)%Z ->
  let nx := ((canvasWidth + g - 1) / g)%Z in
  let ny := ((canvasHeight + g - 1) / g)%Z in
  (Z.to_nat nx + Z.to_nat ny <= fuel)%nat ->
  gridLoop fuel (Sketch64.lit 0) (Sketch64.lit canvasWidth)
           (Sketch64.lit canvasHeight) (Sketch64.lit g)
  = Some (flat_map
            (fun j => List.map (fun i => rect (Sketch64.lit (i * g)) (Sketch64.lit (j * g))
                                              (Sketch64.lit g) (Sketch64.lit g))
                               (range nx))
            (range ny)) /\
  (forall px py : Z,
     (0 <= px < canvasWidth)%Z -> (0 <= py < canvasHeight)%Z ->
     exists i j : Z,
       (0 <= i < nx)%Z /\ (0 <= j < ny)%Z /\
       (i * g <= px < i * g + g)%Z /\ (j * g <= py < j * g + g)%Z /\
       forall i' j' : Z,
         (i' * g <= px < i' * g + g)%Z -> (j' * g <= py < j' * g + g)%Z ->
         i' = i /\ j' = j).
Proof.
  intros Hg nx ny Hf. split.
  - assert (Hx : stepLoop (Z.to_nat nx) (Sketch64.lit 0) (Sketch64.lit canvasWidth)
                          (Sketch64.lit g) = Some (multiples canvasWidth g))
      by (apply stepLoop_integral; [ left; reflexivity | exact Hg | apply Nat.le_refl ]).
    assert (Hy : stepLoop (Z.to_nat ny) (Sketch64.lit 0) (Sketch64.lit canvasHeight)
                          (Sketch64.lit g) = Some (multiples canvasHeight g))
      by (apply stepLoop_integral; [ right; reflexivity | exact Hg | apply Nat.le_refl ]).
    rewrite (gridLoop_flat _ _ _ _ _ Hx _ _ _ fuel Hy)
      by (rewrite !multiples_length; exact Hf).
    rewrite flat_map_multiples. f_equal.
    apply flat_map_ext. intros j. unfold multiples. rewrite List.map_map. reflexivity.
  - intros px py Hpx Hpy.
    destruct (tile_unique canvasWidth g px ltac:(lia) Hpx) as [i [Hi [Hin Hiu]]].
    destruct (tile_unique canvasHeight g py ltac:(lia) Hpy) as [j [Hj [Hjn Hju]]].
    exists i, j. repeat split; try apply Hi; try apply Hj; try apply Hin; try apply Hjn.
    + apply Hiu. assumption.
    + apply Hju. assumption.
Qed.

Lemma readme_grid_tiles_canvas_witness :
  exists squares : list Rect,
    gridLoop 100 (Sketch64.lit 0) (Sketch64.lit canvasWidth)
             (Sketch64.lit canvasHeight) (Sketch64.lit 20) = Some squares /\
    Z.of_nat (length squares) = (64 * 36)%Z.
Proof.
  assert (Hg : (1 <= 20 <= 1280)%Z) by lia.
  assert (Hf : (Z.to_nat ((canvasWidth + 20 - 1) / 20)
                + Z.to_nat ((canvasHeight + 20 - 1) / 20) <= 100)%nat)
    by (vm_compute; lia).
  eexists. split; [ exact (proj1 (readme_grid_tiles_canvas 20 100 Hg Hf)) | ].
  rewrite (flat_map_block_length _ 64%nat)
    by (intros; rewrite length_map; reflexivity).
  reflexivity.
Defined.
